(** * example_restapi_tests: the dummy REST API and its test harness

    A shallow embedding of [api/main.py], [tests/conftest.py],
    [tests/test_functional.py] and [tests/test_performance.py].

    Conventions of the embedding:
    - a Python [int] is a [Z]; a Python [float] that holds a clock reading or
      a latency is the rational it denotes, a [Q] ([time.monotonic()] never
      yields an infinity or a NaN);
    - a call that may raise returns an [Outcome];
    - [time.monotonic()] and the HTTP transport are read from a [World]:
      the n-th call of each gets the n-th answer of the world;
    - a [dict] is an association list in insertion order, as CPython keeps it;
    - a generator is the list of the values it yields. *)

From Stdlib Require Import ZArith QArith Qround Qminmax Qabs.
From Stdlib Require Import List String Ascii Bool Arith Lia.
From Stdlib Require Import DecimalString Permutation Sorted Lqa.
Import ListNotations.

Set Implicit Arguments.
Close Scope Q_scope.
Open Scope string_scope.
Open Scope list_scope.
Open Scope nat_scope.

(** ** Python builtins and library functions the code calls *)

Module Py.

(** The exceptions that can reach the modelled code. *)
Inductive Exception : Type :=
| IndexError
| ValueError
| ZeroDivisionError
| StatisticsError
| AssertionError
| AttributeError
| RequestsTimeout
| RequestsConnectionError.

Inductive Outcome (A : Type) : Type :=
| Returned (a : A)
| Raised (e : Exception).
Arguments Raised {A} e.

Definition bind {A B} (m : Outcome A) (k : A -> Outcome B) : Outcome B :=
  match m with
  | Returned a => k a
  | Raised e => Raised e
  end.

Definition raises {A} (m : Outcome A) : bool :=
  match m with
  | Returned _ => false
  | Raised _ => true
  end.

(** [str(n)] / [f"{n}"] of an [int]. *)
Definition str (n : Z) : string := NilZero.string_of_int (Z.to_int n).

(** [" " * k]. *)
Fixpoint spaces (k : nat) : string :=
  match k with
  | O => EmptyString
  | S k' => String " " (spaces k')
  end.

(** [f"{s:<w}"]: left-aligned in a field of width [w]. *)
Definition ljust (w : nat) (s : string) : string :=
  (s ++ spaces (w - String.length s))%string.

(** [f"{s:>w}"]: right-aligned in a field of width [w]. *)
Definition rjust (w : nat) (s : string) : string :=
  (spaces (w - String.length s) ++ s)%string.

(** ["".join(parts)]. *)
Definition join (parts : list string) : string :=
  fold_right String.append EmptyString parts.

(** [int(x)] of a float: truncation towards zero. *)
Definition int_of_float (x : Q) : Z := Z.quot (Qnum x) (Zpos (Qden x)).

(** [int(b)] of a bool. *)
Definition int_of_bool (b : bool) : Z := if b then 1%Z else 0%Z.

(** [a / b] on two ints (true division). *)
Definition truediv (a b : Z) : Outcome Q :=
  if Z.eqb b 0%Z then Raised ZeroDivisionError
  else Returned (inject_Z a / inject_Z b)%Q.

(** [round(x)] with one argument: to the nearest integer, ties to the even
    one. *)
Definition round (x : Q) : Z :=
  let f := Qfloor x in
  match Qcompare (x - inject_Z f)%Q (1 # 2)%Q with
  | Lt => f
  | Gt => (f + 1)%Z
  | Eq => if Z.even f then f else (f + 1)%Z
  end.

(** [sum(xs)] on ints. *)
Definition sum (xs : list Z) : Z := fold_left Z.add xs 0%Z.

(** [max(xs)] on a non-empty iterable of ints; [ValueError] on an empty
    one. *)
Definition max (xs : list Z) : Outcome Z :=
  match xs with
  | [] => Raised ValueError
  | x :: rest => Returned (fold_left Z.max rest x)
  end.

(** [sorted(xs, key=key)] with float keys.  The sort is stable and compares
    keys with [<] only; an insertion into the already sorted tail, placed
    before the first element whose key is not smaller, gives the list every
    stable sort gives. *)
Section Sorted.
Variable A : Type.
Variable key : A -> Q.

Definition key_lt (x y : A) : bool := negb (Qle_bool (key y) (key x)).

Fixpoint insert (x : A) (l : list A) : list A :=
  match l with
  | [] => [x]
  | y :: l' => if key_lt y x then y :: insert x l' else x :: y :: l'
  end.

Definition sorted (l : list A) : list A := fold_right insert [] l.
End Sorted.

(** [itertools.zip_longest] called on [n] arguments that are one and the
    same iterator [it] over a list, with [fillvalue=None].  A slot is
    either still that iterator or, once a [next] on it has failed, an
    endless supply of the fill value.  [None] is Python's [None]. *)
Section ZipLongest.
Variable V : Type.

Inductive slot : Type := Shared | Fill.

(** One pass of the inner [for] loop over the slots still to visit:
    [None] when the last active slot is exhausted (the generator
    returns, dropping the tuple under construction), else the values
    appended, the iterator's remaining items, the slots as rewritten and
    the number still active. *)
Fixpoint zl_round (todo : list slot) (rest : list (option V))
    (num_active : nat)
  : option (list (option V) * list (option V) * list slot * nat) :=
  match todo with
  | [] => Some ([], rest, [], num_active)
  | Fill :: todo' =>
      match zl_round todo' rest num_active with
      | None => None
      | Some (values, rest', slots', k) =>
          Some (None :: values, rest', Fill :: slots', k)
      end
  | Shared :: todo' =>
      match rest with
      | value :: rest1 =>
          match zl_round todo' rest1 num_active with
          | None => None
          | Some (values, rest', slots', k) =>
              Some (value :: values, rest', Shared :: slots', k)
          end
      | [] =>
          match num_active with
          | O | S O => None
          | S k1 =>
              match zl_round todo' [] k1 with
              | None => None
              | Some (values, rest', slots', k) =>
                  Some (None :: values, rest', Fill :: slots', k)
              end
          end
      end
  end.

(** The [while True] loop; every tuple yielded took an item off the
    iterator or retired a slot, which bounds the passes. *)
Fixpoint zl_loop (fuel : nat) (slots : list slot) (rest : list (option V))
    (num_active : nat) : list (list (option V)) :=
  match fuel with
  | O => []
  | S fuel' =>
      match zl_round slots rest num_active with
      | None => []
      | Some (values, rest', slots', k) =>
          values :: zl_loop fuel' slots' rest' k
      end
  end.

Definition zip_longest_shared (xs : list (option V)) (n : nat)
  : list (list (option V)) :=
  match n with
  | O => []
  | _ => zl_loop (S (List.length xs) + n) (repeat Shared n) xs n
  end.
End ZipLongest.

(** [tuple(i for i in chunk if i is not None)]. *)
Fixpoint not_none {V} (chunk : list (option V)) : list V :=
  match chunk with
  | [] => []
  | Some v :: chunk' => v :: not_none chunk'
  | None :: chunk' => not_none chunk'
  end.

(** [statistics.mean] and [statistics.stdev] work on exact fractions and
    round once at the end; [stdev] returns the square root of the value
    computed here, which is what [Sqrt] stands for. *)
Definition qsum (xs : list Q) : Q := fold_left Qplus xs 0%Q.

Definition mean (data : list Q) : Outcome Q :=
  match data with
  | [] => Raised StatisticsError
  | _ => Returned (qsum data / inject_Z (Z.of_nat (List.length data)))%Q
  end.

Inductive Surd : Type := Sqrt (radicand : Q).

Definition sum_of_squares (data : list Q) : Q :=
  let xbar := (qsum data / inject_Z (Z.of_nat (List.length data)))%Q in
  qsum (map (fun x => (x - xbar) * (x - xbar))%Q data).

Definition stdev (data : list Q) : Outcome Surd :=
  let n := List.length data in
  if Nat.ltb n 2 then Raised StatisticsError
  else Returned (Sqrt (sum_of_squares data / inject_Z (Z.of_nat (n - 1)))%Q).

End Py.

Import Py.

(** ** api/main.py *)

Module Api.

(** The two environment variables the module reads at import, already
    parsed by [int] and [float]; [None] when the variable is unset. *)
Record Environ : Type := {
  env_ID_LIMIT : option Z;
  env_MAX_DELAY : option Q
}.

Definition getenv {A} (v : option A) (default : A) : A :=
  match v with
  | Some a => a
  | None => default
  end.

Definition ID_LIMIT (env : Environ) : Z :=
  Z.max 0%Z (getenv (env_ID_LIMIT env) 100%Z).

Definition MAX_DELAY (env : Environ) : Q :=
  Qmax 0%Q (getenv (env_MAX_DELAY env) 0%Q).

Inductive HTTPException : Type :=
  mkHTTPException (status_code : Z) (detail : string).

Record ItemResponse : Type := { item_id : Z }.

(** [make_response].  [sleep_cancelled] says whether the
    [asyncio.sleep] is cancelled, should it be reached. *)
Definition make_response (env : Environ) (sleep_cancelled : bool)
    (item_id : Z) : HTTPException + ItemResponse :=
  if Z.ltb (ID_LIMIT env) item_id then
    inl (mkHTTPException 404%Z
           ("Item " ++ str item_id ++ " was not found."))
  else if negb (Qeq_bool (MAX_DELAY env) 0%Q) && sleep_cancelled then
    inl (mkHTTPException 503%Z "Server overloaded")
  else
    inr {| item_id := item_id |}.

Definition people := make_response.
Definition planets := make_response.
Definition starships := make_response.

(** What the client sees of the JSON bodies the service sends. *)
Inductive Json : Type :=
| JItem (item_id : Z)          (* {"item_id": item_id} *)
| JDetail (detail : string).   (* {"detail": detail} *)

Record HttpReply : Type := {
  status_code : Z;
  json : Json
}.

(** A GET path: [endpoint] alone, or [endpoint/item_id]. *)
Inductive Path : Type :=
| Bare (endpoint : string)
| WithId (endpoint : string) (item_id : Z).

Definition route (endpoint : string)
  : option (Environ -> bool -> Z -> HTTPException + ItemResponse) :=
  if String.eqb endpoint "people" then Some people
  else if String.eqb endpoint "planets" then Some planets
  else if String.eqb endpoint "starships" then Some starships
  else None.

Definition not_found : HttpReply :=
  {| status_code := 404%Z; json := JDetail "Not Found" |}.

(** The application: the three routes of [app], the framework's reply to
    an [HTTPException] and to a path that matches no route. *)
Definition app (env : Environ) (sleep_cancelled : bool) (p : Path)
  : HttpReply :=
  match p with
  | Bare _ => not_found
  | WithId endpoint i =>
      match route endpoint with
      | None => not_found
      | Some handler =>
          match handler env sleep_cancelled i with
          | inl (mkHTTPException code detail) =>
              {| status_code := code; json := JDetail detail |}
          | inr r => {| status_code := 200%Z; json := JItem (item_id r) |}
          end
      end
  end.

End Api.

(** ** tests/conftest.py *)

Module Conftest.

Definition REQUEST_TIMEOUT : Z := 1.
Definition ID_LIMIT : Z := 10.
Definition SERVER_WORKERS : nat := 2.

(** A [requests.Response], as far as the tests read it; [elapsed] is
    [response.elapsed.total_seconds()]. *)
Record Response : Type := {
  status_code : Z;
  json : Api.Json;
  elapsed : Q
}.

(** [response.ok]: [raise_for_status()] would not raise. *)
Definition ok (r : Response) : bool :=
  negb (Z.leb 400 (status_code r) && Z.ltb (status_code r) 600).

(** What the harness cannot control: the readings of the monotonic clock
    and what [requests_session.get] does, each by the ordinal of the
    call. *)
Record World : Type := {
  monotonic : nat -> Q;
  session_get : nat -> Api.Path -> Outcome Response
}.

(** The closure [request_function] handed to the tests; [n] is the
    ordinal of the call.  Only [requests.Timeout] is caught. *)
Definition request_function (w : World) (n : nat) (path : Api.Path)
  : Outcome (option Response) :=
  match session_get w n path with
  | Returned r => Returned (Some r)
  | Raised RequestsTimeout => Returned None
  | Raised e => Raised e
  end.

(** The environment the fixtures start the server with. *)
Definition serve_api (max_delay : Q) : Api.Environ :=
  {| Api.env_ID_LIMIT := Some ID_LIMIT; Api.env_MAX_DELAY := Some max_delay |}.

Definition serve_api_0ms_delay : Api.Environ := serve_api 0.
Definition serve_api_10ms_delay : Api.Environ := serve_api (1 # 100).
Definition serve_api_100ms_delay : Api.Environ := serve_api (1 # 10).

(** A transport that reaches a server started with [env] and always gets
    its reply, after [latency n] seconds for the n-th call. *)
Definition served_by (env : Api.Environ) (latency : nat -> Q)
    (n : nat) (path : Api.Path) : Outcome Response :=
  let reply := Api.app env false path in
  Returned {| status_code := Api.status_code reply;
              json := Api.json reply;
              elapsed := latency n |}.

End Conftest.

(** ** tests/test_functional.py *)

Module Functional.
Import Conftest.

Definition assert (b : bool) : Outcome unit :=
  if b then Returned tt else Raised AssertionError.

Definition json_eqb (a b : Api.Json) : bool :=
  match a, b with
  | Api.JItem i, Api.JItem j => Z.eqb i j
  | Api.JDetail s, Api.JDetail t => String.eqb s t
  | _, _ => false
  end.

(** Attribute access on the value [send_request_fn] returned. *)
Definition attr (response : option Response) : Outcome Response :=
  match response with
  | Some r => Returned r
  | None => Raised AttributeError
  end.

Section Assertions.
(** [send_request_fn], with the ordinal of the call. *)
Variable send_request_fn : nat -> Api.Path -> Outcome (option Response).

(** The body of [for i in range(ID_LIMIT + 1)] at [i]; it is the
    [(1 + i)]-th call of [send_request_fn]. *)
Definition assert_item (endpoint : string) (i : nat) : Outcome unit :=
  bind (send_request_fn (1 + i) (Api.WithId endpoint (Z.of_nat i)))
    (fun response =>
  bind (attr response) (fun r =>
  bind (assert (Z.eqb (status_code r) 200)) (fun _ =>
  assert (json_eqb (json r) (Api.JItem (Z.of_nat i)))))).

Fixpoint for_each (body : nat -> Outcome unit) (range : list nat)
  : Outcome unit :=
  match range with
  | [] => Returned tt
  | i :: range' => bind (body i) (fun _ => for_each body range')
  end.

Definition do_endpoint_assertions (endpoint : string) : Outcome unit :=
  bind (send_request_fn 0 (Api.Bare endpoint)) (fun response =>
  bind (attr response) (fun r =>
  bind (assert (Z.eqb (status_code r) 404)) (fun _ =>
  bind (for_each (assert_item endpoint)
          (seq 0 (Z.to_nat (ID_LIMIT + 1)))) (fun _ =>
  bind (send_request_fn (Z.to_nat (ID_LIMIT + 2))
          (Api.WithId endpoint (ID_LIMIT + 1))) (fun response =>
  bind (attr response) (fun r =>
  bind (assert (Z.eqb (status_code r) 404)) (fun _ =>
  assert (json_eqb (json r)
            (Api.JDetail
               ("Item " ++ str (ID_LIMIT + 1) ++ " was not found.")))))))))).
End Assertions.

Definition test_endpoint_people send := do_endpoint_assertions send "people".
Definition test_endpoint_planets send :=
  do_endpoint_assertions send "planets".
Definition test_endpoint_starships send :=
  do_endpoint_assertions send "starships".

End Functional.

(** ** tests/test_performance.py *)

Module Performance.
Import Conftest.

Definition TEST_DURATION : Q := 60.
Definition ENDPOINT_PATH : Api.Path := Api.WithId "people" 0.
Definition TEST_CONCURRENCY : nat := SERVER_WORKERS + 1.

(** U+2588 and U+2591, in UTF-8. *)
Definition SOLID_BLOCK_CHARACTER : string :=
  String (ascii_of_nat 226) (String (ascii_of_nat 150)
    (String (ascii_of_nat 136) EmptyString)).
Definition SHADED_BLOCK_CHARACTER : string :=
  String (ascii_of_nat 226) (String (ascii_of_nat 150)
    (String (ascii_of_nat 145) EmptyString)).

(** [chunker]: the list of the tuples the generator yields.  [[it] * n]
    is the empty list for [n <= 0]. *)
Definition chunker {V} (iterable : list (option V)) (n : Z)
  : list (list V) :=
  map not_none (zip_longest_shared iterable (Z.to_nat n)).

(** One entry of [timings]: start time, duration, status. *)
Definition Sample : Type := Q * Q * bool.

Definition start_time (s : Sample) : Q := fst (fst s).
Definition duration (s : Sample) : Q := snd (fst s).
Definition status (s : Sample) : bool := snd s.

(** How many calls of [time.monotonic()] and of [send_request_fn] have
    been made. *)
Record Calls : Type := { ticks : nat; sent : nat }.

Definition time_monotonic (w : World) (c : Calls) : Q * Calls :=
  (monotonic w (ticks c), {| ticks := S (ticks c); sent := sent c |}).

Definition send_request_fn (w : World) (c : Calls) (path : Api.Path)
  : Outcome (option Response) * Calls :=
  (request_function w (sent c) path,
   {| ticks := ticks c; sent := S (sent c) |}).

(** The tuple one iteration appends: the [if response is None or not
    response.ok] statement. *)
Definition timing_entry (now took : Q) (response : option Response)
  : Sample :=
  match response with
  | None => (now, took, false)
  | Some r =>
      if negb (ok r) then (now, took, false)
      else (now, elapsed r, true)
  end.

(** The [while True] loop of [sequential_load_function]; [None] when
    [fuel] iterations did not reach the [break]. *)
Fixpoint sequential_load_loop (fuel : nat) (w : World) (test_ends_at : Q)
    (c : Calls) (timings : list Sample)
  : option (Outcome (list Sample) * Calls) :=
  match fuel with
  | O => None
  | S fuel' =>
      let (now, c1) := time_monotonic w c in
      if negb (Qle_bool now test_ends_at) then Some (Returned timings, c1)
      else
        match send_request_fn w c1 ENDPOINT_PATH with
        | (Raised e, c2) => Some (Raised e, c2)
        | (Returned response, c2) =>
            let (after, c3) := time_monotonic w c2 in
            let took := (after - now)%Q in
            sequential_load_loop fuel' w test_ends_at c3
              (timings ++ [timing_entry now took response])
        end
  end.

Definition sequential_load_function (fuel : nat) (w : World) (c : Calls)
    (test_ends_at : Q) : option (Outcome (list Sample) * Calls) :=
  sequential_load_loop fuel w test_ends_at c [].

(** [for future in futures: timings.extend(future.result())]: the first
    worker that raised re-raises here. *)
Fixpoint gather (results : list (Outcome (list Sample)))
    (timings : list Sample) : Outcome (list Sample) :=
  match results with
  | [] => Returned timings
  | Returned r :: results' => gather results' (timings ++ r)
  | Raised e :: _ => Raised e
  end.

(** Every worker has run to its end when [future.result()] is read;
    [None] when one of them did not end within [fuel] iterations. *)
Fixpoint join_all (futures : list (option (Outcome (list Sample) * Calls)))
  : option (list (Outcome (list Sample))) :=
  match futures with
  | [] => Some []
  | None :: _ => None
  | Some (r, _) :: futures' =>
      match join_all futures' with
      | None => None
      | Some rs => Some (r :: rs)
      end
  end.

(** [concurrent_load_function].  The threads interleave as they please:
    [worlds i] is what the i-th submitted worker gets from the clock and
    the transport. *)
Definition concurrent_load_function (fuel : nat) (worlds : nat -> World)
    (test_ends_at : Q) : option (Outcome (list Sample)) :=
  let futures :=
    map (fun i =>
           sequential_load_function fuel (worlds i)
             {| ticks := 0; sent := 0 |} test_ends_at)
        (seq 0 TEST_CONCURRENCY) in
  match join_all futures with
  | None => None
  | Some results =>
      Some (bind (gather results [])
              (fun timings => Returned (sorted start_time timings)))
  end.

(** The [requests_per_second] dict: keys in insertion order.
    [dict_append d k v] is the [try]/[except KeyError] statement. *)
Fixpoint dict_append (d : list (Z * list Z)) (k v : Z)
  : list (Z * list Z) :=
  match d with
  | [] => [(k, [v])]
  | (k', vs) :: d' =>
      if Z.eqb k' k then (k', vs ++ [v]) :: d'
      else (k', vs) :: dict_append d' k v
  end.

Definition requests_per_second (timings : list Sample)
  : list (Z * list Z) :=
  fold_left
    (fun d (t : Sample) =>
       dict_append d (int_of_float (start_time t)) (int_of_bool (status t)))
    timings [].

Definition values (d : list (Z * list Z)) : list (list Z) := map snd d.

Definition nl : string := String (ascii_of_nat 10) EmptyString.

Definition green_cell : string :=
  ("[green]" ++ SOLID_BLOCK_CHARACTER ++ "[/]")%string.
Definition red_cell : string :=
  ("[red]" ++ SHADED_BLOCK_CHARACTER ++ "[/]")%string.

(** The body of [for chunk in chunker(...)]. *)
Definition cell (chunk : list Z) : Outcome string :=
  bind (truediv (sum chunk) (Z.of_nat (List.length chunk)))
    (fun rate =>
       Returned (if Qle_bool (1 # 2) rate then green_cell else red_cell)).

Fixpoint cells (chunks : list (list Z)) : Outcome (list string) :=
  match chunks with
  | [] => Returned []
  | chunk :: chunks' =>
      bind (cell chunk) (fun c =>
      bind (cells chunks') (fun row => Returned (c :: row)))
  end.

(** The body of [for i, requests_in_second in enumerate(...)]. *)
Definition chart_row (max_requests_in_column : Z) (i : nat)
    (requests_in_second : list Z) : Outcome string :=
  bind (cells (chunker (map Some requests_in_second)
                 max_requests_in_column))
    (fun row =>
       let ok := sum requests_in_second in
       let nok := (Z.of_nat (List.length requests_in_second) - ok)%Z in
       Returned ("t+" ++ ljust 2 (str (Z.of_nat i)) ++ " "
                 ++ rjust 4 (str ok) ++ ":white_check_mark: "
                 ++ rjust 4 (str nok) ++ ":cross_mark: "
                 ++ join row)%string).

Fixpoint chart_rows (max_requests_in_column : Z) (i : nat)
    (buckets : list (list Z)) : Outcome (list string) :=
  match buckets with
  | [] => Returned []
  | b :: buckets' =>
      bind (chart_row max_requests_in_column i b) (fun r =>
      bind (chart_rows max_requests_in_column (S i) buckets') (fun rs =>
      Returned (r :: rs)))
  end.

Definition most_requests_in_second (d : list (Z * list Z)) : Outcome Z :=
  max (map (fun v => Z.of_nat (List.length v)) (values d)).

Definition max_requests_in_column (d : list (Z * list Z)) (columns : Z)
  : Outcome Z :=
  bind (most_requests_in_second d) (fun most =>
  bind (truediv most columns) (fun q => Returned (round q))).

Definition chart_header (max_requests_in_column : Z) : string :=
  (nl ++ "This chart is a visualization of the requests made, each row represents a second,"
     ++ nl ++ "and each cell represents up to " ++ str max_requests_in_column
     ++ " requests." ++ nl
     ++ "If a cell is solid / green, it means that more than a half of its requests passed.")%string.

(** [visualize_requests]: the renderables of the [Group] it returns. *)
Definition visualize_requests (timings : list Sample) (columns : Z)
  : Outcome (list string) :=
  let d := requests_per_second timings in
  bind (max_requests_in_column d columns) (fun w =>
  bind (chart_rows w 0 (values d)) (fun rows =>
  Returned ([chart_header w] ++ rows ++ [nl]))).

(** What [console.log] is called with; the numbers are kept unformatted,
    and the standard deviation as the [Surd] it is the root of. *)
Inductive LogLine : Type :=
| LogStart (path : Api.Path) (duration : Q)
| LogMade (requests : nat) (took : Q)
| LogFailed (failed_requests : Z)
| LogMean (mean : Q)
| LogStdev (stdev : Surd)
| LogChart (renderables : list string).

(** [timings[-1]] and [timings[0]]. *)
Definition item_last (timings : list Sample) : Outcome Sample :=
  match rev timings with
  | [] => Raised IndexError
  | s :: _ => Returned s
  end.

Definition item_first (timings : list Sample) : Outcome Sample :=
  match timings with
  | [] => Raised IndexError
  | s :: _ => Returned s
  end.

(** A computation that logs: the lines logged so far and how it ended. *)
Definition Logged (A : Type) : Type := list LogLine * Outcome A.

Definition log_bind {A B} (m : Outcome A) (k : A -> Logged B) : Logged B :=
  match m with
  | Returned a => k a
  | Raised e => ([], Raised e)
  end.

Definition log {B} (line : LogLine) (k : Logged B) : Logged B :=
  (line :: fst k, snd k).

(** [do_performance_test], from the line after [load_fn] has returned
    [timings]. *)
Definition summarize (timings : list Sample) : Logged (nat * Z) :=
  log_bind (item_last timings) (fun last =>
  log_bind (item_first timings) (fun first =>
  let took := (start_time last + duration last - start_time first)%Q in
  let elapsed_times := map duration timings in
  let failed_requests :=
    sum (map (fun t => int_of_bool (negb (status t))) timings) in
  log (LogMade (List.length timings) took) (
  log (LogFailed failed_requests) (
  log_bind (mean elapsed_times) (fun m =>
  log (LogMean m) (
  log_bind (stdev elapsed_times) (fun sd =>
  log (LogStdev sd) (
  log_bind (visualize_requests timings 10) (fun chart =>
  log (LogChart chart) (
  ([], Returned (List.length timings, failed_requests)))))))))))).

(** [do_performance_test]: [now] is the reading of [time.monotonic()] in
    its first line, [load_fn] the load function bound to
    [send_request_fn], [None] when it does not come back. *)
Definition do_performance_test
    (now : Q) (load_fn : Q -> option (Outcome (list Sample)))
    (duration : Q) : option (Logged (nat * Z)) :=
  let test_ends_at := (now + duration)%Q in
  match load_fn test_ends_at with
  | None => None
  | Some (Raised e) => Some ([LogStart ENDPOINT_PATH duration], Raised e)
  | Some (Returned timings) =>
      Some (log (LogStart ENDPOINT_PATH duration) (summarize timings))
  end.

(** The six [test_endpoint_performance_*] functions: the final
    [assert failed_requests == 0]. *)
Definition test_endpoint_performance
    (now : Q) (load_fn : Q -> option (Outcome (list Sample)))
  : option (Logged unit) :=
  match do_performance_test now load_fn TEST_DURATION with
  | None => None
  | Some (lines, Raised e) => Some (lines, Raised e)
  | Some (lines, Returned (_, failed_requests)) =>
      Some (lines,
            if Z.eqb failed_requests 0 then Returned tt
            else Raised AssertionError)
  end.

End Performance.

(** ** Definitions the statements below are written with *)

Import Conftest Performance.

(** Cutting a list every [n] items: what the chunker is compared with. *)
Section ChunksOf.
Variable V : Type.
Fixpoint chunks_of (fuel n : nat) (xs : list V) : list (list V) :=
  match fuel with
  | O => []
  | S fuel' =>
      match xs with
      | [] => []
      | _ => firstn n xs :: chunks_of fuel' n (skipn n xs)
      end
  end.
End ChunksOf.

(** The order [sorted] sorts by, and the items of a list with a given key,
    in the order they come in. *)
Section KeyOrder.
Variable A : Type.
Variable key : A -> Q.

Definition key_le (x y : A) : Prop := (key x <= key y)%Q.

Definition with_key (k : Q) (l : list A) : list A :=
  filter (fun x => Qeq_bool (key x) k) l.
End KeyOrder.

Section Iterations.
Import Conftest Performance.
Variable w : World.
Variable c : Calls.

(** The clock readings and the answer of iteration [j] of
    [sequential_load_function] entered with the call counts [c]. *)
Definition now_at (j : nat) : Q := monotonic w (ticks c + 2 * j).
Definition after_at (j : nat) : Q := monotonic w (ticks c + 2 * j + 1).
Definition response_at (j : nat) : Outcome (option Response) :=
  request_function w (sent c + j) ENDPOINT_PATH.
Definition transport_at (j : nat) : Outcome Response :=
  session_get w (sent c + j) ENDPOINT_PATH.
End Iterations.

(** A world for examples: the clock advances a quarter of a second per
    reading from [offset]; every third request times out, the others are
    answered by a server started with [env] in a tenth of a second. *)
Definition example_world (env : Api.Environ) (offset : Q) : Conftest.World :=
  {| Conftest.monotonic := fun n => (offset + inject_Z (Z.of_nat n) / 4)%Q;
     Conftest.session_get := fun n path =>
       if Nat.eqb (n mod 3) 2 then Raised RequestsTimeout
       else Conftest.served_by env (fun _ => (1 # 10)%Q) n path |}.

Section Buckets.
Import Performance.

(** The whole second of the clock a sample was started in, and [1] or
    [0] for its status: what [visualize_requests] files it under and
    what it files. *)
Definition second_of (s : Sample) : Z := int_of_float (start_time s).
Definition status01 (s : Sample) : Z := int_of_bool (status s).

(** The samples started in second [k], in the order they come in. *)
Definition in_second (k : Z) (timings : list Sample) : list Sample :=
  filter (fun s => Z.eqb (second_of s) k) timings.

Definition passed (k : Z) (timings : list Sample) : Z :=
  Z.of_nat (List.length (filter status (in_second k timings))).
Definition failed (k : Z) (timings : list Sample) : Z :=
  Z.of_nat
    (List.length (filter (fun s => negb (status s)) (in_second k timings))).

(** The distinct items of a list, in the order they are first seen. *)
Definition first_seen (ks : list Z) : list Z :=
  fold_left
    (fun seen k => if existsb (Z.eqb k) seen then seen else seen ++ [k])
    ks [].

(** What a chart row starts with. *)
Definition row_prefix (i : nat) (ok nok : Z) : string :=
  ("t+" ++ ljust 2 (str (Z.of_nat i)) ++ " "
   ++ rjust 4 (str ok) ++ ":white_check_mark: "
   ++ rjust 4 (str nok) ++ ":cross_mark: ")%string.

(** The grouping section 4.4 of the specification words: buckets keyed
    by the whole seconds elapsed since the start of the test. *)
Definition spec_second (test_start : Q) (s : Sample) : Z :=
  Qfloor (start_time s - test_start)%Q.

Definition spec_buckets (test_start : Q) (timings : list Sample)
  : list (Z * list Z) :=
  fold_left
    (fun d (t : Sample) =>
       dict_append d (spec_second test_start t) (status01 t))
    timings [].
End Buckets.

(** Sample lists for examples.  [sparse_second]: five requests started in
    the same second.  [straddling_timings]: two requests six tenths of a
    second apart, on either side of a whole second of the clock.
    [example_timings]: a run with no request started in second 2. *)
Definition sparse_second : list Performance.Sample :=
  [((1 # 10)%Q, (1 # 10)%Q, true); ((2 # 10)%Q, (1 # 10)%Q, true);
   ((3 # 10)%Q, (1 # 10)%Q, true); ((4 # 10)%Q, (1 # 10)%Q, true);
   ((5 # 10)%Q, (1 # 10)%Q, true)].

Definition straddling_timings : list Performance.Sample :=
  [((6 # 10)%Q, (1 # 10)%Q, true); ((12 # 10)%Q, (1 # 10)%Q, true)].

Definition example_timings : list Performance.Sample :=
  [((1 # 2)%Q, (1 # 10)%Q, true); ((6 # 10)%Q, (1 # 10)%Q, false);
   ((12 # 10)%Q, (2 # 1)%Q, false); ((32 # 10)%Q, (1 # 10)%Q, true)].

(** The doubles nearest to 0.1, 0.2 and 0.3. *)
Definition double_0_1 : Q := (3602879701896397 # 36028797018963968)%Q.
Definition double_0_2 : Q := (3602879701896397 # 18014398509481984)%Q.
Definition double_0_3 : Q := (5404319552844595 # 18014398509481984)%Q.

(** The tolerance of the comparisons with floats. *)
Definition tolerance : Q := (1 # 1000000000000000)%Q.

(** The deadline, the worlds and the worker results of a small concurrent
    run: worker [i] starts an eighth of a second after worker [i - 1]. *)
Definition example_worlds (i : nat) : Conftest.World :=
  example_world Conftest.serve_api_0ms_delay (inject_Z (Z.of_nat i) / 8)%Q.

Definition example_results : list (list Performance.Sample) :=
  Eval vm_compute in
    map (fun i =>
           match Performance.sequential_load_function 8 (example_worlds i)
                   {| Performance.ticks := 0; Performance.sent := 0 |} 1%Q
           with
           | Some (Returned r, _) => r
           | _ => []
           end)
        (seq 0 Performance.TEST_CONCURRENCY).

(** ** Further code of the repository *)

(** [tests/conftest.py], [serve_api]: the wait for the server, and the
    access log it prints when the server is stopped. *)
Module Startup.

(** The line a worker logs when it is ready. *)
Definition STARTUP_COMPLETE : string :=
("Application startup complete." ++ nl)%string.

(** [s.endswith(suffix)]. *)
Fixpoint endswith (s suffix : string) : bool :=
if String.eqb s suffix then true
else
  match s with
  | EmptyString => false
  | String _ s' => endswith s' suffix
  end.

(** How the wait ends: the [break], with what was read of the server's
  stderr, or the [raise TimeoutError]. *)
Inductive Result : Type :=
| Started (initial_output : string)
| TimeoutError.

(** The [while True] loop.  [stderr n] is what the n-th
  [server_process.stderr.read(1)] returns: a character, the empty
  string at the end of the stream, or [None] when the read never comes
  back.  [tick] counts the readings of the clock.  The result is [None]
  when the loop does not come back within [fuel] iterations. *)
Fixpoint wait_loop (fuel : nat) (w : World) (stderr : nat -> option string)
  (timeout_at : Q) (tick reads : nat) (initial_output : string)
  (workers_ready : nat) : option Result :=
match fuel with
| O => None
| S fuel' =>
    if negb (Qle_bool (monotonic w tick) timeout_at) then Some TimeoutError
    else
      match stderr reads with
      | None => None
      | Some ch =>
          let initial_output := (initial_output ++ ch)%string in
          let workers_ready :=
            if endswith initial_output STARTUP_COMPLETE
            then workers_ready + 1 else workers_ready in
          if Nat.leb SERVER_WORKERS workers_ready
          then Some (Started initial_output)
          else wait_loop fuel' w stderr timeout_at (S tick) (S reads)
                 initial_output workers_ready
      end
end.

(** From [timeout_at = time.monotonic() + 10] to the end of the loop. *)
Definition wait_for_startup (fuel : nat) (w : World)
  (stderr : nat -> option string) : option Result :=
wait_loop fuel w stderr (monotonic w 0 + 10)%Q 1 0 EmptyString 0.

(** A stderr that delivers [chunks] one read at a time and then stays
  open and silent. *)
Definition then_silent (chunks : list string) (n : nat) : option string :=
nth_error chunks n.

(** A stderr that delivers [chunks] one read at a time and is then at its
  end: every later read returns the empty string. *)
Definition then_closed (chunks : list string) (n : nat) : option string :=
Some (nth n chunks EmptyString).

(** How many of the reads [chunks], made after [acc] had been read, left
  the output ending with the line of a ready worker. *)
Fixpoint markers_from (acc : string) (chunks : list string) : nat :=
match chunks with
| [] => 0
| ch :: chunks' =>
    (if endswith (acc ++ ch) STARTUP_COMPLETE then 1 else 0)
    + markers_from (acc ++ ch)%string chunks'
end.

(** [stderr] returns [chunks] at the reads from number [from] on. *)
Definition delivers (stderr : nat -> option string) (from : nat)
  (chunks : list string) : Prop :=
forall j, j < List.length chunks ->
          stderr (from + j) = Some (nth j chunks EmptyString).

(** The clock stays within the timeout at the [n] checks from [tick] on. *)
Definition in_time (w : World) (timeout_at : Q) (tick n : nat) : Prop :=
forall j, j < n -> (monotonic w (tick + j) <= timeout_at)%Q.

(** The characters of a text, as [read(1)] returns them one by one. *)
Fixpoint chars (s : string) : list string :=
match s with
| EmptyString => []
| String c s' => String c EmptyString :: chars s'
end.

(** [dict.fromkeys(lines)], as the list of its keys: each line once, where
  it is first met. *)
Definition dict_fromkeys (lines : list string) : list string :=
fold_left
  (fun d line => if existsb (String.eqb line) d then d else d ++ [line])
  lines [].

(** Whether [line] is none of [lines]. *)
Definition absent (lines : list string) (line : string) : bool :=
negb (existsb (String.eqb line) lines).

(** [sep.join(parts)]. *)
Fixpoint join_with (sep : string) (parts : list string) : string :=
match parts with
| [] => EmptyString
| [p] => p
| p :: parts' => (p ++ sep ++ join_with sep parts')%string
end.

(** [access_log], from the lines of the server's stdout. *)
Definition access_log (stdout_lines : list string) : string :=
join_with nl (dict_fromkeys stdout_lines).

End Startup.

(** The glyph of a cell, read off the counts: solid when at least half of
    the requests of the chunk passed. *)
Definition glyph_of (chunk : list Z) : string :=
  if Z.leb (Z.of_nat (List.length chunk)) (2 * sum chunk)
  then green_cell else red_cell.

(** The number of samples that failed. *)
Definition failures (timings : list Sample) : nat :=
  List.length (filter (fun t => negb (status t)) timings).

(** A world whose second request is refused by the transport. *)
Definition refusing_world : World :=
  {| monotonic := fun n => (inject_Z (Z.of_nat n) / 4)%Q;
     session_get := fun n path =>
       if Nat.eqb n 1 then Raised RequestsConnectionError
       else served_by serve_api_0ms_delay (fun _ => (1 # 10)%Q) n path |}.

(** The worlds of a concurrent run whose second worker is refused. *)
Definition refusing_worlds (i : nat) : World :=
  if Nat.eqb i 1 then refusing_world else example_worlds i.

(** The samples of a sequential run in [example_world] to the deadline 1:
    two answered requests and one that timed out across the deadline. *)
Definition example_samples : list Sample :=
  Eval vm_compute in
    match sequential_load_function 4 (example_world serve_api_0ms_delay 0)
            {| ticks := 0; sent := 0 |} 1%Q with
    | Some (Returned r, _) => r
    | _ => []
    end.

(** A world whose requests reach a server started with [env] and are all
    answered, and one where the request with ordinal [n] times out. *)
Definition live_world (env : Api.Environ) (latency : nat -> Q) : World :=
  {| monotonic := fun _ => 0%Q; session_get := served_by env latency |}.

Definition world_with_timeout (env : Api.Environ) (latency : nat -> Q)
    (n : nat) : World :=
  {| monotonic := fun _ => 0%Q;
     session_get := fun k path =>
       if Nat.eqb k n then Raised RequestsTimeout
       else served_by env latency k path |}.

(** Whether [app] has a route for [endpoint]. *)
Definition routed (endpoint : string) : bool :=
  match Api.route endpoint with
  | Some _ => true
  | None => false
  end.

(** A clock that stands still. *)
Definition still_world : World :=
  {| monotonic := fun _ => 0%Q;
     session_get := fun _ _ => Raised RequestsTimeout |}.

(** A clock that advances by six seconds per reading. *)
Definition slow_world : World :=
  {| monotonic := fun n => inject_Z (6 * Z.of_nat n);
     session_get := fun _ _ => Raised RequestsTimeout |}.

(** ** The service: item limit and replies *)

Section ApiFacts.
Variable env : Api.Environ.





End ApiFacts.

(** The functional tests pass against a server started by the
    [serve_api_0ms_delay] fixture, whatever the latencies. *)
Lemma functional_tests_pass (latency : nat -> Q) :
  let send :=
    Conftest.request_function
      {| Conftest.monotonic := fun _ => 0%Q;
         Conftest.session_get :=
           Conftest.served_by Conftest.serve_api_0ms_delay latency |} in
  Functional.test_endpoint_people send = Returned tt /\
  Functional.test_endpoint_planets send = Returned tt /\
  Functional.test_endpoint_starships send = Returned tt.
Proof. repeat split; vm_compute; reflexivity. Qed.





(** ** The chunker *)

Section ChunkerFacts.
Variable V : Type.
Implicit Types (xs : list V) (rest : list (option V)).

Lemma not_none_map_Some xs : not_none (map Some xs) = xs.
Proof. induction xs as [| x xs IH]; simpl; congruence. Qed.

Lemma not_none_app (a b : list (option V)) :
  not_none (a ++ b) = not_none a ++ not_none b.
Proof.
  induction a as [| [v |] a IH]; simpl; congruence.
Qed.

Lemma not_none_repeat_None (k : nat) :
  not_none (repeat (@None V) k) = [].
Proof. induction k; simpl; auto. Qed.

(** A pass over [k] live slots when the iterator still holds [k] items. *)
Lemma zl_round_full (k : nat) : forall rest (a : nat),
  k <= List.length rest ->
  zl_round (repeat Shared k) rest a =
  Some (firstn k rest, skipn k rest, repeat Shared k, a).
Proof.
  induction k as [| k IH]; intros rest a Hk; simpl.
  - reflexivity.
  - destruct rest as [| v rest]; simpl in Hk; [lia |].
    rewrite IH by lia. reflexivity.
Qed.

(** A pass over [k] live slots and an exhausted iterator, with more than
    [k] slots still counted active. *)
Lemma zl_round_drained (k : nat) : forall (a : nat) (tail : list slot),
  k < a ->
  zl_round (repeat Shared k ++ repeat Fill (List.length tail)) [] a =
  Some (repeat (@None V) (k + List.length tail), [],
        repeat Fill (k + List.length tail), a - k).
Proof.
  induction k as [| k IH]; intros a tail Hk; simpl.
  - rewrite Nat.sub_0_r. induction tail as [| t tail IHt]; simpl.
    + reflexivity.
    + rewrite IHt. reflexivity.
  - destruct a as [| [| a]]; try lia.
    rewrite IH by lia. reflexivity.
Qed.

(** A pass that starts on an exhausted iterator with as many live slots
    in front as are counted active ends the generator. *)
Lemma zl_round_stop (k : nat) : forall (tail : list slot),
  0 < k ->
  @zl_round V (repeat Shared k ++ tail) [] k = None.
Proof.
  induction k as [| k IH]; intros tail Hk; [lia |].
  simpl. destruct k as [| k]; [reflexivity |].
  rewrite IH by lia. reflexivity.
Qed.

(** The last, short pass: [m] items left for [m + j] live slots. *)
Lemma zl_round_short (m : nat) : forall rest (j : nat),
  List.length rest = m -> 0 < m -> 0 < j ->
  zl_round (repeat Shared (m + j)) rest (m + j) =
  Some (rest ++ repeat None j, [],
        repeat Shared m ++ repeat Fill j, m).
Proof.
  assert (Hgen : forall (m : nat) rest (j a : nat),
             List.length rest = m -> j < a ->
             zl_round (repeat Shared (m + j)) rest a =
             Some (rest ++ repeat None j, [],
                   repeat Shared m ++ repeat Fill j, a - j)).
  { clear m. induction m as [| m IH]; intros rest j a Hlen Hj.
    - destruct rest; [| discriminate]. simpl.
      pose proof (@zl_round_drained j a [] Hj) as H.
      simpl in H. rewrite app_nil_r, Nat.add_0_r in H. exact H.
    - destruct rest as [| v rest]; [discriminate |].
      simpl in Hlen. simpl. rewrite (IH rest j a) by lia. reflexivity. }
  intros rest j Hlen Hm Hj.
  rewrite (Hgen m rest j (m + j)) by lia.
  replace (m + j - j) with m by lia. reflexivity.
Qed.

Lemma chunks_of_loop (n : nat) : 0 < n ->
  forall (fuel : nat) xs, List.length xs < fuel ->
  map (@not_none V) (zl_loop fuel (repeat Shared n) (map Some xs) n) =
  chunks_of fuel n xs.
Proof.
  intros Hn fuel.
  induction fuel as [| fuel IH]; intros xs Hfuel; [lia |].
  destruct xs as [| x xs'].
  - simpl map at 2. cbn [zl_loop chunks_of].
    pose proof (@zl_round_stop n [] Hn) as H.
    rewrite app_nil_r in H. rewrite H. reflexivity.
  - assert (Hne : 0 < List.length (x :: xs')) by (simpl; lia).
    revert Hfuel Hne. generalize (x :: xs') as xs. clear x xs'.
    intros xs Hfuel Hne.
    destruct (Nat.le_gt_cases n (List.length xs)) as [Hfull | Hshort].
    + cbn [zl_loop]. rewrite zl_round_full by (rewrite length_map; lia).
      cbn [map]. rewrite skipn_map, firstn_map, not_none_map_Some.
      rewrite IH by (rewrite length_skipn; lia).
      destruct xs as [| x xs']; [simpl in Hne; lia | reflexivity].
    + cbn [zl_loop].
      replace n with (List.length xs + (n - List.length xs)) at 1 2 by lia.
      rewrite zl_round_short by (rewrite ?length_map; lia).
      cbn [map]. rewrite not_none_app, not_none_map_Some,
        not_none_repeat_None, app_nil_r.
      destruct fuel as [| fuel]; [lia |].
      cbn [zl_loop].
      rewrite zl_round_stop by lia.
      destruct xs as [| x xs']; [simpl in Hne; lia |].
      cbn [chunks_of map].
      rewrite firstn_all2 by lia.
      rewrite skipn_all2 by lia.
      reflexivity.
Qed.

(** The generator yields what cutting the list every [n] items gives. *)
Lemma chunker_chunks_of xs (n : Z) : (1 <= n)%Z ->
  Performance.chunker (map Some xs) n =
  chunks_of (S (List.length xs) + Z.to_nat n) (Z.to_nat n) xs.
Proof.
  intros Hn. unfold Performance.chunker, zip_longest_shared.
  destruct (Z.to_nat n) as [| k] eqn:Hk; [lia |].
  rewrite length_map.
  apply chunks_of_loop; lia.
Qed.

Lemma chunks_of_concat (n : nat) : 0 < n ->
  forall (fuel : nat) xs, List.length xs < fuel ->
  List.concat (chunks_of fuel n xs) = xs.
Proof.
  intros Hn fuel.
  induction fuel as [| fuel IH]; intros xs Hfuel; [lia |].
  destruct xs as [| x xs']; [reflexivity |].
  cbn [chunks_of List.concat].
  rewrite IH by (rewrite length_skipn; cbn [List.length] in *; lia).
  apply firstn_skipn.
Qed.

Lemma chunks_of_sizes (n : nat) : 0 < n ->
  forall (fuel : nat) xs,
  Forall (fun c => c <> [] /\ List.length c <= n) (chunks_of fuel n xs).
Proof.
  intros Hn fuel.
  induction fuel as [| fuel IH]; intros xs; [constructor |].
  destruct xs as [| x xs']; [constructor |].
  cbn [chunks_of]. constructor; [| apply IH].
  split.
  - destruct n; [lia | discriminate].
  - rewrite length_firstn. lia.
Qed.

(** Every chunk that has a successor is full. *)
Lemma chunks_of_full (n : nat) :
  forall (fuel : nat) xs (i : nat),
  S i < List.length (chunks_of fuel n xs) ->
  List.length (nth i (chunks_of fuel n xs) []) = n.
Proof.
  intros fuel.
  induction fuel as [| fuel IH]; intros xs i Hi; [simpl in Hi; lia |].
  destruct xs as [| x xs']; [simpl in Hi; lia |].
  cbn [chunks_of] in *. set (xs := x :: xs') in *.
  assert (Hlen : n <= List.length xs).
  { destruct (Nat.le_gt_cases n (List.length xs)) as [H | H]; [exact H |].
    rewrite skipn_all2 in Hi by lia.
    destruct fuel; simpl in Hi; lia. }
  destruct i as [| i].
  - simpl. rewrite length_firstn. lia.
  - simpl. apply IH. simpl in Hi. lia.
Qed.
End ChunkerFacts.

(** C9: for a list without [None] items (the image of [xs] under [Some])
    and a chunk size [n >= 1], the chunks the chunker yields concatenate
    to [xs], each is non-empty and holds at most [n] items, and each but
    the last holds exactly [n]. *)
Theorem C9_chunker_partitions_in_order
    (V : Type) (xs : list V) (n : Z) :
  (1 <= n)%Z ->
  let chunks := Performance.chunker (map Some xs) n in
  List.concat chunks = xs /\
  Forall (fun c => c <> [] /\ (Z.of_nat (List.length c) <= n)%Z) chunks /\
  (forall i, S i < List.length chunks ->
             Z.of_nat (List.length (nth i chunks [])) = n).
Proof.
  intros Hn chunks. unfold chunks.
  rewrite chunker_chunks_of by exact Hn.
  assert (Hpos : 0 < Z.to_nat n) by lia.
  split; [| split].
  - apply chunks_of_concat; lia.
  - eapply Forall_impl; [| apply chunks_of_sizes; exact Hpos].
    simpl. intros c [Hne Hle]. split; [exact Hne | lia].
  - intros i Hi. rewrite chunks_of_full by exact Hi. lia.
Qed.

Lemma C9_chunker_partitions_in_order_witness :
  Performance.chunker (map Some [1; 0; 1; 1; 0]%Z) 2 =
    [[1; 0]; [1; 1]; [0]]%Z /\
  List.concat (Performance.chunker (map Some [1; 0; 1; 1; 0]%Z) 2) =
    [1; 0; 1; 1; 0]%Z.
Proof.
  split; [reflexivity |].
  apply (@C9_chunker_partitions_in_order Z [1; 0; 1; 1; 0]%Z 2%Z).
  lia.
Defined.

(** ** [sorted]: a stable sort by key *)

Section SortedFacts.
Variable A : Type.
Variable key : A -> Q.

Lemma key_lt_true (x y : A) : key_lt key x y = true <-> (key x < key y)%Q.
Proof.
  unfold key_lt. rewrite negb_true_iff.
  split.
  - intros H. apply Qnot_le_lt. intros Hle.
    apply Qle_bool_iff in Hle. congruence.
  - intros H. destruct (Qle_bool (key y) (key x)) eqn:E; [| reflexivity].
    apply Qle_bool_iff in E. exfalso. exact (Qlt_not_le _ _ H E).
Qed.

Lemma key_lt_false (x y : A) : key_lt key x y = false <-> (key y <= key x)%Q.
Proof.
  unfold key_lt. rewrite negb_false_iff. apply Qle_bool_iff.
Qed.

Lemma insert_perm (x : A) (l : list A) : Permutation (insert key x l) (x :: l).
Proof.
  induction l as [| y l IH]; simpl; [reflexivity |].
  destruct (key_lt key y x).
  - rewrite IH. apply perm_swap.
  - reflexivity.
Qed.

Lemma sorted_perm (l : list A) : Permutation (sorted key l) l.
Proof.
  induction l as [| x l IH]; simpl; [reflexivity |].
  rewrite insert_perm. constructor. exact IH.
Qed.

Lemma sorted_length (l : list A) :
  List.length (sorted key l) = List.length l.
Proof. apply Permutation_length, sorted_perm. Qed.

Lemma insert_sorted (x : A) (l : list A) :
  StronglySorted (key_le key) l -> StronglySorted (key_le key) (insert key x l).
Proof.
  induction 1 as [| y l Hs IH Hall]; simpl.
  - constructor; constructor.
  - destruct (key_lt key y x) eqn:E.
    + constructor; [exact IH |].
      apply key_lt_true in E.
      eapply Permutation_Forall; [symmetry; apply insert_perm |].
      constructor; [apply Qlt_le_weak; exact E | exact Hall].
    + apply key_lt_false in E.
      constructor; [constructor; assumption |].
      constructor; [exact E |].
      eapply Forall_impl; [| exact Hall].
      intros z Hz. unfold key_le in *. eapply Qle_trans; eassumption.
Qed.

Lemma sorted_sorted (l : list A) : StronglySorted (key_le key) (sorted key l).
Proof.
  induction l as [| x l IH]; simpl; [constructor |].
  apply insert_sorted, IH.
Qed.

(** Stability: the elements with any one key keep their order. *)
Lemma insert_with_key (k : Q) (x : A) (l : list A) :
  StronglySorted (key_le key) l ->
  with_key key k (insert key x l) = with_key key k (x :: l).
Proof.
  induction 1 as [| y l Hs IH Hall]; [reflexivity |].
  simpl insert. destruct (key_lt key y x) eqn:E; [| reflexivity].
  apply key_lt_true in E.
  unfold with_key in *. cbn [filter] in *. rewrite IH.
  destruct (Qeq_bool (key x) k) eqn:Ex, (Qeq_bool (key y) k) eqn:Ey;
    try reflexivity.
  apply Qeq_bool_iff in Ex, Ey. rewrite Ex, Ey in E.
  exfalso. exact (Qlt_irrefl _ E).
Qed.

Lemma sorted_stable (k : Q) (l : list A) :
  with_key key k (sorted key l) = with_key key k l.
Proof.
  induction l as [| x l IH]; [reflexivity |].
  simpl sorted. rewrite insert_with_key by apply sorted_sorted.
  unfold with_key in *. cbn [filter]. rewrite IH. reflexivity.
Qed.
End SortedFacts.

(** ** The load functions *)

Section LoopFacts.
Import Conftest Performance.

Lemma start_time_timing_entry (now took : Q) (r : option Response) :
  start_time (timing_entry now took r) = now.
Proof.
  unfold timing_entry. destruct r as [r |]; [| reflexivity].
  destruct (negb (ok r)); reflexivity.
Qed.

Lemma status_timing_entry (now took : Q) (r : option Response) :
  status (timing_entry now took r) =
  match r with Some r => ok r | None => false end.
Proof.
  unfold timing_entry. destruct r as [r |]; [| reflexivity].
  destruct (ok r); reflexivity.
Qed.

Lemma Qle_bool_false (x y : Q) : Qle_bool x y = false <-> (y < x)%Q.
Proof.
  split.
  - intros H. apply Qnot_le_lt. intros Hle.
    apply Qle_bool_iff in Hle. congruence.
  - intros H. destruct (Qle_bool x y) eqn:E; [| reflexivity].
    apply Qle_bool_iff in E. exfalso. exact (Qlt_not_le _ _ H E).
Qed.

(** Whatever the world, a sample is only ever recorded with a start time
    read at or before the deadline. *)
Lemma loop_starts_by_deadline (w : World) (e : Q) (fuel : nat) :
  forall (c : Calls) (timings result : list Sample) (c' : Calls),
  Forall (fun s => (start_time s <= e)%Q) timings ->
  sequential_load_loop fuel w e c timings = Some (Returned result, c') ->
  Forall (fun s => (start_time s <= e)%Q) result.
Proof.
  induction fuel as [| fuel IH]; intros c timings result c' Hall Hrun;
    [discriminate |].
  cbn [sequential_load_loop time_monotonic send_request_fn] in Hrun.
  destruct (Qle_bool (monotonic w (ticks c)) e) eqn:Hnow; cbn [negb] in Hrun.
  - destruct (request_function w _ ENDPOINT_PATH) as [response | ex];
      [| discriminate].
    cbn [ticks sent] in Hrun.
    eapply IH; [| exact Hrun].
    apply Forall_app. split; [exact Hall |].
    constructor; [| constructor].
    rewrite start_time_timing_entry. apply Qle_bool_iff. exact Hnow.
  - injection Hrun as <- _. exact Hall.
Qed.

(** The run of the loop when the clock first passes the deadline at the
    check of iteration [k] and the [k] requests before it come back. *)
Lemma loop_runs (w : World) (e : Q) (k : nat) :
  forall (fuel t s : nat) (timings : list Sample),
  let c := {| ticks := t; sent := s |} in
  (forall j, j < k -> (now_at w c j <= e)%Q) ->
  (e < now_at w c k)%Q ->
  (forall j, j < k -> exists r, response_at w c j = Returned r) ->
  k < fuel ->
  exists entries,
    sequential_load_loop fuel w e c timings =
      Some (Returned (timings ++ entries),
            {| ticks := t + 2 * k + 1; sent := s + k |}) /\
    List.length entries = k /\
    forall j, j < k ->
      exists r, response_at w c j = Returned r /\
                nth_error entries j =
                Some (timing_entry (now_at w c j)
                        (after_at w c j - now_at w c j)%Q r).
Proof.
  unfold now_at, after_at, response_at. cbn [ticks sent].
  induction k as [| k IH]; intros fuel t s timings Hbefore Hpast Hresp Hfuel.
  - destruct fuel as [| fuel]; [lia |].
    exists []. split; [| split; [reflexivity | intros j Hj; lia]].
    cbn [sequential_load_loop time_monotonic ticks sent].
    replace (t + 2 * 0) with t in Hpast by lia.
    apply Qle_bool_false in Hpast. rewrite Hpast. cbn [negb].
    rewrite app_nil_r.
    replace (t + 2 * 0 + 1) with (S t) by lia.
    replace (s + 0) with s by lia. reflexivity.
  - destruct fuel as [| fuel]; [lia |].
    cbn [sequential_load_loop time_monotonic send_request_fn ticks sent].
    pose proof (Hbefore 0 ltac:(lia)) as H0.
    replace (t + 2 * 0) with t in H0 by lia.
    apply Qle_bool_iff in H0. rewrite H0. cbn [negb].
    destruct (Hresp 0 ltac:(lia)) as [r0 Hr0].
    replace (s + 0) with s in Hr0 by lia. rewrite Hr0.
    destruct (IH fuel (S (S t)) (S s)
                (timings ++
                 [timing_entry (monotonic w t)
                    (monotonic w (S t) - monotonic w t)%Q r0]))
      as [entries [Hrun [Hlen Hnth]]].
    + intros j Hj.
      replace (S (S t) + 2 * j) with (t + 2 * S j) by lia.
      apply Hbefore. lia.
    + replace (S (S t) + 2 * k) with (t + 2 * S k) by lia. exact Hpast.
    + intros j Hj. replace (S s + j) with (s + S j) by lia.
      apply Hresp. lia.
    + lia.
    + eexists (_ :: entries). split; [| split].
      * rewrite Hrun. rewrite <- app_assoc. cbn [app].
        replace (t + 2 * S k + 1) with (S (S t) + 2 * k + 1) by lia.
        replace (s + S k) with (S s + k) by lia. reflexivity.
      * simpl. congruence.
      * intros [| j] Hj.
        -- exists r0. replace (s + 0) with s by lia.
           split; [exact Hr0 |]. cbn [nth_error].
           replace (t + 2 * 0) with t by lia.
           replace (t + 1) with (S t) by lia. reflexivity.
        -- destruct (Hnth j ltac:(lia)) as [r [Hr Hj']].
           exists r. replace (s + S j) with (S s + j) by lia.
           split; [exact Hr |]. cbn [nth_error]. rewrite Hj'.
           replace (S (S t) + 2 * j) with (t + 2 * S j) by lia.
           replace (t + 2 * S j + 1) with (S (S t) + 2 * j + 1) by lia.
           reflexivity.
Qed.

Lemma request_function_timeout (w : World) (n : nat) (path : Api.Path) :
  session_get w n path = Raised RequestsTimeout ->
  request_function w n path = Returned None.
Proof. unfold request_function. intros ->. reflexivity. Qed.

Lemma request_function_reply (w : World) (n : nat) (path : Api.Path)
    (r : Response) :
  session_get w n path = Returned r ->
  request_function w n path = Returned (Some r).
Proof. unfold request_function. intros ->. reflexivity. Qed.

Lemma gather_returned (results : list (list Sample)) :
  forall timings,
  gather (map (@Returned _) results) timings =
  Returned (timings ++ List.concat results).
Proof.
  induction results as [| r results IH]; intros timings; simpl.
  - rewrite app_nil_r. reflexivity.
  - rewrite IH, app_assoc. reflexivity.
Qed.

Lemma join_all_returned (f : nat -> option (Outcome (list Sample) * Calls))
    (workers : list nat) (results : list (list Sample)) :
  Forall2 (fun i r => exists c', f i = Some (Returned r, c'))
    workers results ->
  join_all (map f workers) = Some (map (@Returned _) results).
Proof.
  induction 1 as [| i r workers results [c' Hi] _ IH]; simpl.
  - reflexivity.
  - rewrite Hi, IH. reflexivity.
Qed.
End LoopFacts.

(** C4: the loop of the sequential strategy leaves at the first reading of
    the clock that is past the deadline, so every sample it returns was
    started at or before the deadline.  A request started at or before the
    deadline is recorded whenever it completes, and the time by which its
    completion passes the deadline is at most the time the request took. *)
Theorem C4_sequential_stops_at_deadline
    (w : World) (e : Q) (c : Calls) (k fuel : nat) :
  (forall result c',
      sequential_load_function fuel w c e = Some (Returned result, c') ->
      Forall (fun s => (start_time s <= e)%Q) result) /\
  ((forall j, j < k -> (now_at w c j <= e)%Q) ->
   (e < now_at w c k)%Q ->
   (forall j, j < k -> exists r, response_at w c j = Returned r) ->
   k < fuel ->
   exists result,
     sequential_load_function fuel w c e =
       Some (Returned result,
             {| ticks := ticks c + 2 * k + 1; sent := sent c + k |}) /\
     List.length result = k /\
     forall j, j < k ->
       exists s, nth_error result j = Some s /\
                 start_time s = now_at w c j /\
                 (start_time s <= e)%Q /\
                 (after_at w c j - e <= after_at w c j - start_time s)%Q).
Proof.
  split.
  - intros result c' Hrun. unfold sequential_load_function in Hrun.
    eapply loop_starts_by_deadline; [constructor | exact Hrun].
  - intros Hbefore Hpast Hresp Hfuel.
    destruct c as [t s].
    destruct (@loop_runs w e k fuel t s [] Hbefore Hpast Hresp Hfuel)
      as [entries [Hrun [Hlen Hnth]]].
    exists entries. split; [exact Hrun | split; [exact Hlen |]].
    intros j Hj. destruct (Hnth j Hj) as [r [_ Hentry]].
    eexists. split; [exact Hentry |].
    rewrite start_time_timing_entry.
    split; [reflexivity | split; [apply Hbefore; exact Hj |]].
    apply Qplus_le_r, Qopp_le_compat, Hbefore, Hj.
Qed.

Lemma C4_sequential_stops_at_deadline_witness :
  exists result,
    sequential_load_function 4
      (example_world serve_api_0ms_delay 0) {| ticks := 0; sent := 0 |} 1%Q =
      Some (Returned result, {| ticks := 7; sent := 3 |}) /\
    List.length result = 3 /\
    forall j, j < 3 ->
      exists s, nth_error result j = Some s /\
                start_time s =
                  now_at (example_world serve_api_0ms_delay 0)
                    {| ticks := 0; sent := 0 |} j /\
                (start_time s <= 1)%Q /\
                (after_at (example_world serve_api_0ms_delay 0)
                   {| ticks := 0; sent := 0 |} j - 1 <=
                 after_at (example_world serve_api_0ms_delay 0)
                   {| ticks := 0; sent := 0 |} j - start_time s)%Q.
Proof.
  apply (@C4_sequential_stops_at_deadline
           (example_world serve_api_0ms_delay 0) 1%Q
           {| ticks := 0; sent := 0 |} 3 4).
  - intros j Hj. destruct j as [| [| [| j]]]; [| | | lia];
      apply Qle_bool_iff; reflexivity.
  - reflexivity.
  - intros j Hj. destruct j as [| [| [| j]]]; [| | | lia];
      eexists; reflexivity.
  - lia.
Defined.

(** C6: a transport timeout makes [request_function] return [None]
    instead of raising.  As long as the transport answers or times out,
    every iteration of the load loop appends one sample, with status
    [False] when the request timed out or the response is not ok and
    [True] otherwise, and the loop goes on to the deadline: [k] iterations
    give [k] samples. *)
Theorem C6_timeouts_and_failures_are_recorded
    (w : World) (e : Q) (c : Calls) (k fuel : nat) :
  (forall n path, session_get w n path = Raised RequestsTimeout ->
                  request_function w n path = Returned None) /\
  ((forall j, j < k -> (now_at w c j <= e)%Q) ->
   (e < now_at w c k)%Q ->
   (forall j, j < k ->
      transport_at w c j = Raised RequestsTimeout \/
      exists r, transport_at w c j = Returned r) ->
   k < fuel ->
   exists result c',
     sequential_load_function fuel w c e = Some (Returned result, c') /\
     List.length result = k /\
     sent c' = sent c + k /\
     forall j, j < k ->
       exists s, nth_error result j = Some s /\
                 start_time s = now_at w c j /\
                 status s =
                   match transport_at w c j with
                   | Returned r => ok r
                   | Raised _ => false
                   end).
Proof.
  split; [apply request_function_timeout |].
  intros Hbefore Hpast Htransport Hfuel.
  assert (Hresp : forall j, j < k ->
            exists r, response_at w c j = Returned r /\
                      match r with Some r => ok r | None => false end =
                      match transport_at w c j with
                      | Returned r => ok r
                      | Raised _ => false
                      end).
  { intros j Hj. unfold response_at, transport_at in *.
    destruct (Htransport j Hj) as [Ht | [r Hr]].
    - exists None. rewrite Ht.
      split; [apply request_function_timeout; exact Ht | reflexivity].
    - exists (Some r). rewrite Hr.
      split; [apply request_function_reply; exact Hr | reflexivity]. }
  destruct c as [t s].
  destruct (@loop_runs w e k fuel t s [] Hbefore Hpast) as
    [entries [Hrun [Hlen Hnth]]].
  { intros j Hj. destruct (Hresp j Hj) as [r [Hr _]]. exists r; exact Hr. }
  { exact Hfuel. }
  exists entries, {| ticks := t + 2 * k + 1; sent := s + k |}.
  split; [exact Hrun | split; [exact Hlen | split; [reflexivity |]]].
  intros j Hj. destruct (Hnth j Hj) as [r [Hr Hentry]].
  destruct (Hresp j Hj) as [r' [Hr' Hstatus]].
  assert (r' = r) by congruence. subst r'.
  eexists. split; [exact Hentry |].
  rewrite start_time_timing_entry, status_timing_entry.
  split; [reflexivity | exact Hstatus].
Qed.

Lemma C6_timeouts_and_failures_are_recorded_witness :
  exists result c',
    sequential_load_function 4
      (example_world serve_api_0ms_delay 0) {| ticks := 0; sent := 0 |} 1%Q =
      Some (Returned result, c') /\
    List.length result = 3 /\
    sent c' = 3 /\
    forall j, j < 3 ->
      exists s, nth_error result j = Some s /\
                start_time s =
                  now_at (example_world serve_api_0ms_delay 0)
                    {| ticks := 0; sent := 0 |} j /\
                status s =
                  match transport_at (example_world serve_api_0ms_delay 0)
                          {| ticks := 0; sent := 0 |} j with
                  | Returned r => ok r
                  | Raised _ => false
                  end.
Proof.
  apply (@C6_timeouts_and_failures_are_recorded
           (example_world serve_api_0ms_delay 0) 1%Q
           {| ticks := 0; sent := 0 |} 3 4).
  - intros j Hj. destruct j as [| [| [| j]]]; [| | | lia];
      apply Qle_bool_iff; reflexivity.
  - reflexivity.
  - intros j Hj. destruct j as [| [| [| j]]]; [| | | lia].
    + right. eexists. reflexivity.
    + right. eexists. reflexivity.
    + left. reflexivity.
  - lia.
Defined.

(** C3: when every worker has returned its samples, the concurrent
    strategy returns their concatenation sorted by start time with a
    stable sort: the result is ordered by start time, is a permutation of
    the concatenation (nothing dropped, nothing duplicated), keeps the
    order of samples with equal start times, and is as long as the
    workers' results together. *)
Theorem C3_concurrent_merges_and_sorts
    (fuel : nat) (worlds : nat -> World) (e : Q)
    (results : list (list Sample)) :
  Forall2
    (fun i r =>
       exists c',
         sequential_load_function fuel (worlds i)
           {| ticks := 0; sent := 0 |} e = Some (Returned r, c'))
    (seq 0 TEST_CONCURRENCY) results ->
  exists merged,
    concurrent_load_function fuel worlds e = Some (Returned merged) /\
    merged = sorted start_time (List.concat results) /\
    StronglySorted (key_le start_time) merged /\
    Permutation merged (List.concat results) /\
    (forall t, with_key start_time t merged =
               with_key start_time t (List.concat results)) /\
    List.length merged = list_sum (map (@List.length _) results).
Proof.
  intros Hworkers.
  exists (sorted start_time (List.concat results)).
  split; [| split; [reflexivity | split; [| split; [| split]]]].
  - unfold concurrent_load_function.
    rewrite (join_all_returned _ Hworkers), gather_returned.
    reflexivity.
  - apply sorted_sorted.
  - apply sorted_perm.
  - intros t. apply sorted_stable.
  - rewrite sorted_length. apply length_concat.
Qed.

Lemma C3_concurrent_merges_and_sorts_witness :
  exists merged,
    concurrent_load_function 8 example_worlds 1%Q = Some (Returned merged) /\
    merged = sorted start_time (List.concat example_results) /\
    StronglySorted (key_le start_time) merged /\
    Permutation merged (List.concat example_results) /\
    (forall t, with_key start_time t merged =
               with_key start_time t (List.concat example_results)) /\
    List.length merged = list_sum (map (@List.length _) example_results).
Proof.
  apply (@C3_concurrent_merges_and_sorts 8 example_worlds 1%Q example_results).
  repeat constructor; eexists; reflexivity.
Defined.

(** ** The buckets of the visualizer *)

Section BucketFacts.
Import Performance.

Lemma filter_none (A : Type) (f : A -> bool) (l : list A) :
  (forall x, In x l -> f x = false) -> filter f l = [].
Proof.
  induction l as [| x l IH]; intros H; [reflexivity |].
  simpl. rewrite (H x) by (left; reflexivity).
  apply IH. intros y Hy. apply H. right. exact Hy.
Qed.

Lemma first_seen_snoc (ks : list Z) (k : Z) :
  first_seen (ks ++ [k]) =
  if existsb (Z.eqb k) (first_seen ks) then first_seen ks
  else first_seen ks ++ [k].
Proof. unfold first_seen. rewrite fold_left_app. reflexivity. Qed.

Lemma existsb_eqb_In (k : Z) (l : list Z) :
  existsb (Z.eqb k) l = true <-> In k l.
Proof.
  rewrite existsb_exists. split.
  - intros [x [Hin Heq]]. apply Z.eqb_eq in Heq. subst. exact Hin.
  - intros Hin. exists k. split; [exact Hin | apply Z.eqb_refl].
Qed.

Lemma first_seen_In (ks : list Z) (k : Z) :
  In k (first_seen ks) <-> In k ks.
Proof.
  induction ks as [| x ks IH] using rev_ind; [reflexivity |].
  rewrite first_seen_snoc, in_app_iff.
  destruct (existsb (Z.eqb x) (first_seen ks)) eqn:E.
  - apply (proj1 (existsb_eqb_In _ _)) in E. rewrite IH in *.
    simpl. intuition (subst; auto).
  - rewrite in_app_iff, IH. reflexivity.
Qed.

Lemma first_seen_NoDup (ks : list Z) : NoDup (first_seen ks).
Proof.
  induction ks as [| x ks IH] using rev_ind; [constructor |].
  rewrite first_seen_snoc.
  destruct (existsb (Z.eqb x) (first_seen ks)) eqn:E; [exact IH |].
  apply NoDup_app; [exact IH | repeat constructor; intros [] |].
  intros k Hk [<- | []].
  apply (proj2 (existsb_eqb_In _ _)) in Hk. congruence.
Qed.

Lemma in_second_snoc (k : Z) (timings : list Sample) (t : Sample) :
  in_second k (timings ++ [t]) =
  in_second k timings ++ (if Z.eqb (second_of t) k then [t] else []).
Proof. unfold in_second. rewrite filter_app. reflexivity. Qed.

(** [dict_append] on a dict with distinct keys [ks]. *)
Lemma dict_append_known (g : Z -> list Z) (k v : Z) (ks : list Z) :
  NoDup ks -> In k ks ->
  dict_append (map (fun x => (x, g x)) ks) k v =
  map (fun x => (x, if Z.eqb x k then g x ++ [v] else g x)) ks.
Proof.
  induction 1 as [| x ks Hx Hnd IH]; intros Hin; [destruct Hin |].
  cbn [map dict_append].
  destruct (Z.eqb_spec x k) as [-> | Hne].
  - f_equal. apply map_ext_in. intros y Hy.
    destruct (Z.eqb_spec y k) as [-> | _]; [contradiction | reflexivity].
  - f_equal. apply IH. destruct Hin as [-> | Hin]; [congruence | exact Hin].
Qed.

Lemma dict_append_new (g : Z -> list Z) (k v : Z) (ks : list Z) :
  ~ In k ks ->
  dict_append (map (fun x => (x, g x)) ks) k v =
  map (fun x => (x, g x)) ks ++ [(k, [v])].
Proof.
  induction ks as [| x ks IH]; intros Hin; [reflexivity |].
  cbn [map dict_append].
  destruct (Z.eqb_spec x k) as [-> | Hne]; [exfalso; apply Hin; left; auto |].
  cbn [app]. f_equal. apply IH. intros H. apply Hin. right. exact H.
Qed.

Lemma requests_per_second_snoc (timings : list Sample) (t : Sample) :
  requests_per_second (timings ++ [t]) =
  dict_append (requests_per_second timings) (second_of t) (status01 t).
Proof. unfold requests_per_second. rewrite fold_left_app. reflexivity. Qed.

(** The dict [visualize_requests] builds: one entry per whole clock second
    in which a sample was started, in the order the seconds are first
    seen, holding the statuses of the samples of that second in order. *)
Lemma requests_per_second_groups (timings : list Sample) :
  requests_per_second timings =
  map (fun k => (k, map status01 (in_second k timings)))
    (first_seen (map second_of timings)).
Proof.
  induction timings as [| t timings IH] using rev_ind; [reflexivity |].
  rewrite requests_per_second_snoc, IH, map_app. cbn [map].
  rewrite first_seen_snoc.
  destruct (existsb (Z.eqb (second_of t))
              (first_seen (map second_of timings))) eqn:E.
  - apply (proj1 (existsb_eqb_In _ _)) in E.
    rewrite dict_append_known by (auto using first_seen_NoDup).
    apply map_ext. intros k. rewrite in_second_snoc, map_app.
    rewrite (Z.eqb_sym k).
    destruct (Z.eqb (second_of t) k); [reflexivity |].
    cbn [map]. rewrite app_nil_r. reflexivity.
  - assert (Hnew : ~ In (second_of t) (first_seen (map second_of timings))).
    { intros H. apply (proj2 (existsb_eqb_In _ _)) in H. congruence. }
    rewrite dict_append_new by exact Hnew.
    rewrite map_app. cbn [map]. f_equal.
    + apply map_ext_in. intros k Hk. rewrite in_second_snoc.
      destruct (Z.eqb_spec (second_of t) k) as [<- | _];
        [contradiction |].
      rewrite app_nil_r. reflexivity.
    + rewrite in_second_snoc, Z.eqb_refl, map_app. cbn [map].
      replace (in_second (second_of t) timings) with (@nil Sample);
        [reflexivity |].
      symmetry. unfold in_second.
      apply filter_none. intros s Hs.
      destruct (Z.eqb_spec (second_of s) (second_of t)) as [Heq | _];
        [| reflexivity].
      exfalso. apply Hnew. apply (proj2 (first_seen_In _ _)).
      rewrite <- Heq. apply in_map. exact Hs.
Qed.
End BucketFacts.

Section OrderFacts.
Import Performance.

Lemma int_of_float_mono (x y : Q) :
  (x <= y)%Q -> (int_of_float x <= int_of_float y)%Z.
Proof.
  unfold Qle, int_of_float. intros H.
  rewrite <- (Z.quot_mul_cancel_r (Qnum x) (Zpos (Qden x)) (Zpos (Qden y)))
    by discriminate.
  rewrite <- (Z.quot_mul_cancel_r (Qnum y) (Zpos (Qden y)) (Zpos (Qden x)))
    by discriminate.
  rewrite (Z.mul_comm (Zpos (Qden y)) (Zpos (Qden x))).
  apply Z.quot_le_mono; [reflexivity | exact H].
Qed.

Lemma ssorted_snoc (A : Type) (R : A -> A -> Prop) (l : list A) (x : A) :
  StronglySorted R l -> Forall (fun y => R y x) l ->
  StronglySorted R (l ++ [x]).
Proof.
  induction 1 as [| a l Hs IH Ha]; intros Hx; simpl.
  - repeat constructor.
  - inversion Hx; subst. constructor; [apply IH; assumption |].
    apply Forall_app. split; [exact Ha | repeat constructor; assumption].
Qed.

Lemma ssorted_snoc_inv (A : Type) (R : A -> A -> Prop) (l : list A) (x : A) :
  StronglySorted R (l ++ [x]) ->
  StronglySorted R l /\ Forall (fun y => R y x) l.
Proof.
  induction l as [| a l IH]; simpl; intros H.
  - split; constructor.
  - apply StronglySorted_inv in H. destruct H as [Hs Ha].
    destruct (IH Hs) as [Hl Hx].
    apply Forall_app in Ha. destruct Ha as [Ha Hax].
    split; constructor; try assumption.
    inversion Hax; assumption.
Qed.

Lemma ssorted_map (A B : Type) (R : A -> A -> Prop) (R' : B -> B -> Prop)
    (f : A -> B) (l : list A) :
  (forall a b, R a b -> R' (f a) (f b)) ->
  StronglySorted R l -> StronglySorted R' (map f l).
Proof.
  intros Hf. induction 1 as [| a l Hs IH Ha]; simpl; constructor.
  - exact IH.
  - apply Forall_map. eapply Forall_impl; [| exact Ha].
    intros b. apply Hf.
Qed.

(** The seconds first seen in a non-decreasing list come out strictly
    increasing. *)
Lemma first_seen_ascending (ks : list Z) :
  StronglySorted Z.le ks -> StronglySorted Z.lt (first_seen ks).
Proof.
  induction ks as [| k ks IH] using rev_ind; intros Hs; [constructor |].
  apply ssorted_snoc_inv in Hs. destruct Hs as [Hs Hk].
  rewrite first_seen_snoc.
  destruct (existsb (Z.eqb k) (first_seen ks)) eqn:E; [apply IH, Hs |].
  apply ssorted_snoc; [apply IH, Hs |].
  apply Forall_forall. intros x Hx.
  assert (x <> k).
  { intros ->. apply (proj2 (existsb_eqb_In _ _)) in Hx. congruence. }
  apply (proj1 (first_seen_In _ _)) in Hx.
  rewrite Forall_forall in Hk. specialize (Hk x Hx). simpl in Hk. lia.
Qed.

Lemma seconds_ascending (timings : list Sample) :
  StronglySorted (key_le start_time) timings ->
  StronglySorted Z.lt (first_seen (map second_of timings)).
Proof.
  intros Hs. apply first_seen_ascending.
  eapply ssorted_map; [| exact Hs].
  intros a b. apply int_of_float_mono.
Qed.

(** Rows are numbered from 0: the number is the second counted from the
    first row's when no second in between is missing. *)
Lemma consecutive_seconds (seconds : list Z) :
  (forall j, S j < List.length seconds ->
             nth (S j) seconds 0%Z = (nth j seconds 0 + 1)%Z) ->
  forall i k, nth_error seconds i = Some k ->
              Z.of_nat i = (k - nth 0 seconds 0)%Z.
Proof.
  intros Hstep i. induction i as [| i IH]; intros k Hk.
  - rewrite (nth_error_nth _ _ 0%Z Hk). lia.
  - assert (Hlen : S i < List.length seconds).
    { apply nth_error_Some. congruence. }
    destruct (nth_error seconds i) as [k' |] eqn:Hk'.
    + specialize (IH k' eq_refl).
      pose proof (Hstep i Hlen) as Hs.
      rewrite (nth_error_nth _ _ 0%Z Hk), (nth_error_nth _ _ 0%Z Hk') in Hs.
      lia.
    + apply nth_error_None in Hk'. lia.
Qed.
End OrderFacts.

(** ** The chart *)

Section ChartFacts.
Import Performance.

Lemma string_app_assoc (a b c : string) :
  ((a ++ b) ++ c = a ++ (b ++ c))%string.
Proof. induction a as [| x a IH]; simpl; congruence. Qed.

Lemma sum_from (xs : list Z) (a : Z) :
  fold_left Z.add xs a = (a + sum xs)%Z.
Proof.
  unfold sum. revert a.
  induction xs as [| x xs IH]; intros a; simpl; [lia |].
  rewrite (IH (a + x)%Z), (IH x). lia.
Qed.

Lemma sum_cons (x : Z) (xs : list Z) : sum (x :: xs) = (x + sum xs)%Z.
Proof. unfold sum at 1. simpl. apply sum_from. Qed.

Lemma sum_status01 (ss : list Sample) :
  sum (map status01 ss) = Z.of_nat (List.length (filter status ss)).
Proof.
  induction ss as [| s ss IH]; [reflexivity |].
  cbn [map filter]. rewrite sum_cons, IH. unfold status01.
  destruct (status s); cbn [int_of_bool List.length]; lia.
Qed.

Lemma count_not_status (ss : list Sample) :
  (Z.of_nat (List.length (map status01 ss)) - sum (map status01 ss))%Z =
  Z.of_nat (List.length (filter (fun s => negb (status s)) ss)).
Proof.
  rewrite sum_status01, length_map.
  induction ss as [| s ss IH]; [reflexivity |].
  cbn [filter List.length]. destruct (status s); cbn [negb List.length]; lia.
Qed.

Lemma chunker_nonempty (V : Type) (xs : list V) (n : Z) :
  Forall (fun c => c <> []) (chunker (map Some xs) n).
Proof.
  destruct (Z.le_gt_cases 1 n) as [Hn | Hn].
  - rewrite chunker_chunks_of by exact Hn.
    eapply Forall_impl; [| apply chunks_of_sizes; lia].
    simpl. intros c [Hne _]. exact Hne.
  - unfold chunker. replace (Z.to_nat n) with 0 by lia. constructor.
Qed.

Lemma cells_returned (chunks : list (list Z)) :
  Forall (fun c => c <> []) chunks ->
  exists row, cells chunks = Returned row /\
              List.length row = List.length chunks.
Proof.
  induction 1 as [| c chunks Hc _ [row [IH Hlen]]].
  - exists []. split; reflexivity.
  - cbn [cells]. unfold cell, truediv.
    destruct (Z.eqb_spec (Z.of_nat (List.length c)) 0) as [H0 | _].
    + destruct c; [contradiction | simpl in H0; lia].
    + cbn [bind]. rewrite IH. cbn [bind].
      eexists. split; [reflexivity | simpl; congruence].
Qed.

Lemma chart_row_returned (w : Z) (i : nat) (b : list Z) :
  exists row,
    chart_row w i b =
    Returned (row_prefix i (sum b) (Z.of_nat (List.length b) - sum b)
              ++ join row)%string.
Proof.
  unfold chart_row.
  destruct (cells_returned (chunker_nonempty b w)) as [row [Hrow _]].
  rewrite Hrow. cbn [bind]. exists row. f_equal.
  unfold row_prefix. repeat rewrite string_app_assoc. reflexivity.
Qed.

Lemma chart_rows_returned (w : Z) (buckets : list (list Z)) :
  forall i, exists rows,
    chart_rows w i buckets = Returned rows /\
    List.length rows = List.length buckets /\
    forall j b, nth_error buckets j = Some b ->
      exists glyphs,
        nth_error rows j =
        Some (row_prefix (i + j) (sum b)
                (Z.of_nat (List.length b) - sum b) ++ glyphs)%string.
Proof.
  induction buckets as [| b buckets IH]; intros i.
  - exists []. repeat split. intros [| j] b H; discriminate H.
  - cbn [chart_rows].
    destruct (chart_row_returned w i b) as [row Hrow].
    destruct (IH (S i)) as [rows [Hrows [Hlen Hnth]]].
    rewrite Hrow, Hrows. cbn [bind].
    eexists. split; [reflexivity | split; [simpl; congruence |]].
    intros [| j] b' Hb'; cbn [nth_error] in *.
    + injection Hb' as <-. rewrite Nat.add_0_r. eexists. reflexivity.
    + destruct (Hnth j b' Hb') as [glyphs Hg].
      exists glyphs. rewrite Hg.
      replace (i + S j) with (S i + j) by lia. reflexivity.
Qed.

Lemma requests_per_second_nonempty (timings : list Sample) :
  timings <> [] -> requests_per_second timings <> [].
Proof.
  destruct timings as [| t timings] using rev_ind; [congruence |].
  intros _. rewrite requests_per_second_snoc.
  destruct (requests_per_second timings) as [| [k vs] d]; simpl;
    [discriminate |].
  destruct (Z.eqb k (second_of t)); discriminate.
Qed.

Lemma max_requests_in_column_returned
    (d : list (Z * list Z)) (columns : Z) :
  d <> [] -> columns <> 0%Z ->
  exists w, max_requests_in_column d columns = Returned w.
Proof.
  intros Hd Hc. unfold max_requests_in_column, most_requests_in_second.
  destruct d as [| [k vs] d]; [congruence |].
  cbn [values map max bind]. unfold truediv.
  destruct (Z.eqb_spec columns 0); [contradiction |].
  cbn [bind]. eexists. reflexivity.
Qed.

(** The chart is produced for every non-empty sample list: a header, one
    row per bucket, a closing newline. *)
Lemma visualize_requests_returned (timings : list Sample) (columns : Z) :
  timings <> [] -> columns <> 0%Z ->
  exists w rows,
    max_requests_in_column (requests_per_second timings) columns =
      Returned w /\
    visualize_requests timings columns =
      Returned (chart_header w :: rows ++ [nl]) /\
    List.length rows = List.length (requests_per_second timings) /\
    forall j k vs,
      nth_error (requests_per_second timings) j = Some (k, vs) ->
      exists glyphs,
        nth_error rows j =
        Some (row_prefix j (sum vs)
                (Z.of_nat (List.length vs) - sum vs) ++ glyphs)%string.
Proof.
  intros Ht Hc. unfold visualize_requests.
  destruct (max_requests_in_column_returned
              (requests_per_second_nonempty Ht) Hc) as [w Hw].
  destruct (chart_rows_returned w (values (requests_per_second timings)) 0)
    as [rows [Hrows [Hlen Hnth]]].
  exists w, rows. rewrite Hw. cbn [bind]. rewrite Hrows. cbn [bind].
  split; [reflexivity | split; [reflexivity | split]].
  - rewrite Hlen. unfold values. apply length_map.
  - intros j k vs Hj. apply (Hnth j vs).
    unfold values. rewrite nth_error_map, Hj. reflexivity.
Qed.
End ChartFacts.

(** ** The summary *)

Section SummaryFacts.
Import Performance.

Lemma item_last_returned (timings : list Sample) :
  timings <> [] -> exists s, item_last timings = Returned s.
Proof.
  intros Hne. unfold item_last.
  destruct (rev timings) as [| s l] eqn:E.
  - exfalso. apply Hne. rewrite <- (rev_involutive timings), E. reflexivity.
  - exists s. reflexivity.
Qed.

Lemma summarize_returned (timings : list Sample) :
  2 <= List.length timings ->
  let n := List.length timings in
  let elapsed_times := map duration timings in
  let failed_requests :=
    sum (map (fun t => int_of_bool (negb (status t))) timings) in
  exists took chart,
    visualize_requests timings 10 = Returned chart /\
    summarize timings =
    ([LogMade n took; LogFailed failed_requests;
      LogMean (qsum elapsed_times / inject_Z (Z.of_nat n))%Q;
      LogStdev
        (Sqrt (sum_of_squares elapsed_times / inject_Z (Z.of_nat (n - 1)))%Q);
      LogChart chart],
     Returned (n, failed_requests)).
Proof.
  intros Hlen n elapsed_times failed_requests.
  destruct timings as [| first timings']; [simpl in Hlen; lia |].
  assert (Hne : first :: timings' <> []) by discriminate.
  destruct (item_last_returned Hne) as [last Hlast].
  destruct (@visualize_requests_returned _ 10 Hne ltac:(discriminate))
    as [w [rows [_ [Hchart _]]]].
  eexists. exists (chart_header w :: rows ++ [nl]).
  split; [exact Hchart |].
  unfold summarize. rewrite Hlast. cbn [log_bind].
  cbn [item_first log_bind].
  unfold stdev, mean. rewrite length_map.
  destruct (Nat.ltb_spec (List.length (first :: timings')) 2) as [H | _];
    [lia |].
  cbn [map log_bind]. rewrite Hchart. cbn [log_bind log fst snd].
  unfold n, elapsed_times, failed_requests.
  rewrite ?length_map. cbn [map]. reflexivity.
Qed.
End SummaryFacts.

(** C5: on fewer than two samples [statistics.stdev] raises
    [StatisticsError]; the summary raises (already [IndexError] at
    [timings[-1]] for no sample at all), returns no count and makes the
    calling test raise the same exception.  On two or more samples neither
    raises. *)
Theorem C5_stdev_needs_two_samples
    (timings : list Sample) (now : Q) :
  (List.length timings < 2 ->
   let e := match timings with
            | [] => IndexError
            | _ => StatisticsError
            end in
   stdev (map duration timings) = Raised StatisticsError /\
   snd (summarize timings) = Raised e /\
   exists lines,
     test_endpoint_performance now (fun _ => Some (Returned timings)) =
     Some (lines, Raised e)) /\
  (2 <= List.length timings ->
   (exists sd, stdev (map duration timings) = Returned sd) /\
   exists lines,
     summarize timings =
     (lines,
      Returned
        (List.length timings,
         sum (map (fun t => int_of_bool (negb (status t))) timings)))).
Proof.
  split.
  - intros Hlen.
    destruct timings as [| s [| s' timings']]; [| | simpl in Hlen; lia].
    + repeat split. eexists. reflexivity.
    + repeat split. eexists. reflexivity.
  - intros Hlen. split.
    + unfold stdev. rewrite length_map.
      destruct (Nat.ltb_spec (List.length timings) 2) as [H | _]; [lia |].
      eexists. reflexivity.
    + destruct (summarize_returned timings Hlen) as [took [chart [_ Hs]]].
      eexists. exact Hs.
Qed.

Lemma C5_stdev_needs_two_samples_witness :
  snd (summarize [((1 # 2)%Q, (1 # 10)%Q, true)]) = Raised StatisticsError /\
  exists lines,
    summarize example_timings = (lines, Returned (4, 2%Z)).
Proof.
  split.
  - apply (@C5_stdev_needs_two_samples [((1 # 2)%Q, (1 # 10)%Q, true)] 0%Q).
    simpl. lia.
  - apply (@C5_stdev_needs_two_samples example_timings 0%Q).
    simpl. lia.
Defined.

(** C8: the summary of three samples with latencies 0.1, 0.2 and 0.3, the
    last one failed, counts 3 requests and 1 failure, logs the mean 0.2 of
    the three latencies and the standard deviation 0.1: the root of the
    sum of the squared deviations from the mean divided by [n - 1 = 2].
    With the latencies held as doubles the mean and the standard deviation
    are within [tolerance] of 0.2 and 0.1. *)
Theorem C8_summary_of_three_samples (t0 t1 t2 : Q) :
  (exists took m v chart,
     summarize [(t0, (1 # 10)%Q, true); (t1, (2 # 10)%Q, true);
                (t2, (3 # 10)%Q, false)] =
       ([LogMade 3 took; LogFailed 1; LogMean m; LogStdev (Sqrt v);
         LogChart chart],
        Returned (3, 1%Z)) /\
     (m == 2 # 10)%Q /\
     (v == (1 # 10) * (1 # 10))%Q /\
     (v == (((1 # 10) - m) * ((1 # 10) - m) + ((2 # 10) - m) * ((2 # 10) - m)
            + ((3 # 10) - m) * ((3 # 10) - m)) / (3 - 1))%Q) /\
  (exists took m v chart,
     summarize [(t0, double_0_1, true); (t1, double_0_2, true);
                (t2, double_0_3, false)] =
       ([LogMade 3 took; LogFailed 1; LogMean m; LogStdev (Sqrt v);
         LogChart chart],
        Returned (3, 1%Z)) /\
     (Qabs (m - (2 # 10)) <= tolerance)%Q /\
     (((1 # 10) - tolerance) * ((1 # 10) - tolerance) <= v)%Q /\
     (v <= ((1 # 10) + tolerance) * ((1 # 10) + tolerance))%Q).
Proof.
  split.
  - destruct (@summarize_returned
                [(t0, (1 # 10)%Q, true); (t1, (2 # 10)%Q, true);
                 (t2, (3 # 10)%Q, false)] ltac:(simpl; lia))
      as [took [chart [_ Hs]]].
    do 4 eexists. split; [exact Hs |].
    split; [| split]; vm_compute; reflexivity.
  - destruct (@summarize_returned
                [(t0, double_0_1, true); (t1, double_0_2, true);
                 (t2, double_0_3, false)] ltac:(simpl; lia))
      as [took [chart [_ Hs]]].
    do 4 eexists. split; [exact Hs |].
    split; [| split]; vm_compute; discriminate.
Qed.

(** C1: the weight of a cell is [round(M / columns)] with no lower bound.
    For five requests started in one second and ten columns it is
    [round(0.5) = 0]; the chunker then yields no chunk, and the row of
    that second shows its counts and not a single cell. *)
Theorem C1_cell_weight_zero_for_sparse_second :
  most_requests_in_second (requests_per_second sparse_second) = Returned 5%Z /\
  max_requests_in_column (requests_per_second sparse_second) 10 =
    Returned 0%Z /\
  chunker (map Some [1; 1; 1; 1; 1]%Z) 0 = [] /\
  visualize_requests sparse_second 10 =
    Returned [chart_header 0; row_prefix 0 5 0; nl].
Proof. repeat split. Qed.

(** C2, as the code has it: the samples are grouped by [int(startTime)],
    the whole second of the clock reading itself, one bucket per second in
    which a sample was started; a row is emitted per bucket, in the order
    the seconds are first seen, which is ascending when the samples are
    ordered by start time; each row starts with [t+i] and the numbers of
    passed and failed requests of its bucket, where [i] counts the rows
    from 0 and is the bucket's second less the first bucket's whenever no
    second in between is without a request. *)
Theorem C2_rows_by_clock_second (timings : list Sample) (columns : Z) :
  timings <> [] -> columns <> 0%Z ->
  let seconds := first_seen (map second_of timings) in
  requests_per_second timings =
    map (fun k => (k, map status01 (in_second k timings))) seconds /\
  NoDup seconds /\
  (forall k, In k seconds <-> exists s, In s timings /\ second_of s = k) /\
  (StronglySorted (key_le start_time) timings ->
   StronglySorted Z.lt seconds) /\
  exists w rows,
    visualize_requests timings columns =
      Returned (chart_header w :: rows ++ [nl]) /\
    List.length rows = List.length seconds /\
    forall i k, nth_error seconds i = Some k ->
      (exists glyphs,
          nth_error rows i =
          Some (row_prefix i (passed k timings) (failed k timings)
                ++ glyphs)%string) /\
      ((forall j, S j < List.length seconds ->
                  nth (S j) seconds 0%Z = (nth j seconds 0 + 1)%Z) ->
       Z.of_nat i = (k - nth 0 seconds 0)%Z).
Proof.
  intros Hne Hcol seconds.
  pose proof (requests_per_second_groups timings) as Hgroups.
  fold seconds in Hgroups.
  split; [exact Hgroups |].
  split; [apply first_seen_NoDup |].
  split.
  { intros k. unfold seconds. rewrite first_seen_In, in_map_iff.
    split; intros [s [H1 H2]]; exists s; auto. }
  split; [apply seconds_ascending |].
  destruct (visualize_requests_returned Hne Hcol)
    as [w [rows [_ [Hchart [Hlen Hrows]]]]].
  exists w, rows. split; [exact Hchart |].
  rewrite Hgroups, length_map in Hlen. split; [exact Hlen |].
  intros i k Hk. split.
  - destruct (Hrows i k (map status01 (in_second k timings))) as [glyphs Hg].
    { rewrite Hgroups, nth_error_map, Hk. reflexivity. }
    exists glyphs. rewrite Hg. unfold passed, failed.
    rewrite count_not_status, sum_status01. reflexivity.
  - intros Hstep. apply consecutive_seconds; assumption.
Qed.

Lemma C2_rows_by_clock_second_witness :
  requests_per_second example_timings =
    [(0, [1; 0]); (1, [0]); (3, [1])]%Z /\
  StronglySorted Z.lt (first_seen (map second_of example_timings)) /\
  exists w rows,
    visualize_requests example_timings 10 =
      Returned (chart_header w :: rows ++ [nl]) /\
    List.length rows = 3 /\
    exists glyphs, nth_error rows 2 = Some (row_prefix 2 1 0 ++ glyphs)%string.
Proof.
  destruct (@C2_rows_by_clock_second example_timings 10%Z)
    as [Hgroups [_ [_ [Hsorted [w [rows [Hchart [Hlen Hrows]]]]]]]].
  - discriminate.
  - discriminate.
  - split; [exact Hgroups |]. split.
    + apply Hsorted.
      repeat match goal with
             | |- StronglySorted _ _ => constructor
             | |- Forall _ _ => constructor
             | |- key_le _ _ _ =>
                 unfold key_le; apply Qle_bool_iff; reflexivity
             end.
    + exists w, rows. split; [exact Hchart |]. split; [exact Hlen |].
      exact (proj1 (Hrows 2 3%Z eq_refl)).
Defined.

(** C2 as stated fails: two requests started at 0.6 s and 1.2 s of the
    clock in a test begun at 0.5 s are 0.1 s and 0.7 s into the test, one
    bucket by [floor(startTime - testStart)]; the code files them under
    the clock seconds 0 and 1, and draws two rows. *)
Lemma C2_counterexample :
  values (requests_per_second straddling_timings) = [[1]; [1]]%Z /\
  values (spec_buckets (1 # 2) straddling_timings) = [[1; 1]]%Z /\
  values (requests_per_second straddling_timings) <>
  values (spec_buckets (1 # 2) straddling_timings).
Proof. repeat split. discriminate. Qed.
(** ** More on the chunker *)

Section ChunkerMore.
Variable V : Type.

Lemma zl_loop_chunks (n : nat) : 0 < n ->
  forall (fuel : nat) (rest : list (option V)), List.length rest < fuel ->
  map (@not_none V) (zl_loop fuel (repeat Shared n) rest n) =
  map (@not_none V) (chunks_of fuel n rest).
Proof.
  intros Hn fuel.
  induction fuel as [| fuel IH]; intros rest Hfuel; [lia |].
  destruct rest as [| x rest'].
  - cbn [zl_loop chunks_of].
    pose proof (@zl_round_stop V n [] Hn) as H.
    rewrite app_nil_r in H. rewrite H. reflexivity.
  - assert (Hne : 0 < List.length (x :: rest')) by (simpl; lia).
    revert Hfuel Hne. generalize (x :: rest') as rest. clear x rest'.
    intros rest Hfuel Hne.
    destruct (Nat.le_gt_cases n (List.length rest)) as [Hfull | Hshort].
    + cbn [zl_loop]. rewrite zl_round_full by lia.
      cbn [map]. rewrite IH by (rewrite length_skipn; lia).
      destruct rest as [| x rest']; [simpl in Hne; lia | reflexivity].
    + cbn [zl_loop].
      replace n with (List.length rest + (n - List.length rest))
        at 1 2 by lia.
      rewrite zl_round_short by lia.
      cbn [map]. rewrite not_none_app, not_none_repeat_None, app_nil_r.
      destruct fuel as [| fuel]; [lia |].
      cbn [zl_loop].
      rewrite zl_round_stop by lia.
      destruct rest as [| x rest']; [simpl in Hne; lia |].
      cbn [chunks_of map].
      rewrite firstn_all2 by lia.
      rewrite skipn_all2 by lia.
      reflexivity.
Qed.

Lemma not_none_length (c : list (option V)) :
  List.length (not_none c) <= List.length c.
Proof. induction c as [| [v |] c IH]; simpl; lia. Qed.

Lemma not_none_concat (l : list (list (option V))) :
  List.concat (map (@not_none V) l) = not_none (List.concat l).
Proof.
  induction l as [| c l IH]; simpl; [reflexivity |].
  rewrite not_none_app, IH. reflexivity.
Qed.
End ChunkerMore.

Lemma chunks_of_length (V : Type) (n : nat) : 0 < n ->
  forall (fuel : nat) (xs : list V), List.length xs < fuel ->
  List.length (chunks_of fuel n xs) = (List.length xs + n - 1) / n.
Proof.
  intros Hn fuel.
  induction fuel as [| fuel IH]; intros xs Hfuel; [lia |].
  destruct xs as [| x xs'].
  - simpl. symmetry. apply Nat.div_small. lia.
  - assert (Hne : 0 < List.length (x :: xs')) by (simpl; lia).
    cbn [chunks_of]. revert Hfuel Hne. generalize (x :: xs') as xs.
    clear x xs'. intros xs Hfuel Hne. cbn [List.length].
    rewrite IH by (rewrite length_skipn; lia).
    rewrite length_skipn.
    destruct (Nat.le_gt_cases n (List.length xs)) as [Hfull | Hshort].
    + replace (List.length xs + n - 1)
        with (List.length xs - n + n - 1 + 1 * n) by lia.
      rewrite Nat.div_add by lia. lia.
    + replace (List.length xs - n + n - 1) with (n - 1) by lia.
      rewrite (Nat.div_small (n - 1)) by lia.
      apply (Nat.div_unique _ _ 1 (List.length xs - 1)); lia.
Qed.

(** X1: the chunker on any list.  A chunk size of 0 or less yields no
    chunk at all.  For a chunk size [n >= 1] the list is cut every [n]
    items and the [None] items are then dropped: the chunks concatenate to
    the list without its [None] items, there are [ceil(len / n)] of them,
    and none holds more than [n] items. *)
Theorem chunker_drops_none_items
    (V : Type) (xs : list (option V)) (n : Z) :
  ((n <= 0)%Z -> chunker xs n = []) /\
  ((1 <= n)%Z ->
   List.concat (chunker xs n) = not_none xs /\
   List.length (chunker xs n) =
     (List.length xs + Z.to_nat n - 1) / Z.to_nat n /\
   Forall (fun c => List.length c <= Z.to_nat n) (chunker xs n)).
Proof.
  split.
  - intros Hn. unfold chunker. replace (Z.to_nat n) with 0 by lia.
    reflexivity.
  - intros Hn. unfold chunker, zip_longest_shared.
    destruct (Z.to_nat n) as [| k] eqn:Hk; [lia |].
    rewrite zl_loop_chunks; [| lia | simpl; lia].
    split; [| split].
    + rewrite not_none_concat, chunks_of_concat by lia. reflexivity.
    + rewrite length_map. apply chunks_of_length; lia.
    + apply Forall_map.
      eapply Forall_impl; [| apply (@chunks_of_sizes _ (S k)); lia].
      simpl. intros c [_ Hc].
      pose proof (not_none_length c). lia.
Qed.

Lemma chunker_drops_none_items_witness :
  chunker [Some 1%Z; None; None; Some 4%Z; Some 5%Z] (-1) = [] /\
  List.concat (chunker [Some 1%Z; None; None; Some 4%Z; Some 5%Z] 2) =
    [1; 4; 5]%Z /\
  List.length (chunker [Some 1%Z; None; None; Some 4%Z; Some 5%Z] 2) = 3.
Proof.
  pose proof (@chunker_drops_none_items Z
                [Some 1%Z; None; None; Some 4%Z; Some 5%Z] (-1)) as Hneg.
  pose proof (@chunker_drops_none_items Z
                [Some 1%Z; None; None; Some 4%Z; Some 5%Z] 2) as Hpos.
  split; [apply Hneg; lia |].
  destruct (proj2 Hpos ltac:(lia)) as [Hcat [Hlen _]].
  split; [exact Hcat | exact Hlen].
Defined.

(** ** More on the chart *)

Lemma half_le_rate (s n : Z) : (0 < n)%Z ->
  Qle_bool (1 # 2) (inject_Z s / inject_Z n) = Z.leb n (2 * s).
Proof.
  intros Hn.
  assert (Hq : (0 < inject_Z n)%Q).
  { unfold Qlt, inject_Z. simpl. lia. }
  destruct (Z.leb_spec n (2 * s)) as [Hle | Hlt].
  - apply Qle_bool_iff. apply Qle_shift_div_l; [exact Hq |].
    unfold Qle, Qmult, inject_Z. cbn [Qnum Qden].
    rewrite ?Pos.mul_1_r. lia.
  - destruct (Qle_bool (1 # 2) (inject_Z s / inject_Z n)) eqn:E;
      [| reflexivity].
    apply Qle_bool_iff in E. exfalso.
    apply (Qlt_not_le _ _ (Qlt_shift_div_r (inject_Z s) (inject_Z n) (1 # 2)
                             Hq ltac:(unfold Qlt, Qmult, inject_Z; cbn [Qnum Qden];
                                      rewrite ?Pos.mul_1_r; lia))).
    exact E.
Qed.

Lemma cell_glyph (chunk : list Z) :
  chunk <> [] -> cell chunk = Returned (glyph_of chunk).
Proof.
  intros Hne. unfold cell, truediv, glyph_of.
  assert (Hlen : (0 < Z.of_nat (List.length chunk))%Z)
    by (destruct chunk; [contradiction | simpl; lia]).
  destruct (Z.eqb_spec (Z.of_nat (List.length chunk)) 0) as [H0 | _]; [lia |].
  cbn [bind]. rewrite half_le_rate by exact Hlen. reflexivity.
Qed.

Lemma cells_glyphs (chunks : list (list Z)) :
  Forall (fun c => c <> []) chunks ->
  cells chunks = Returned (map glyph_of chunks).
Proof.
  induction 1 as [| c chunks Hc _ IH]; [reflexivity |].
  cbn [cells map]. rewrite (cell_glyph Hc), IH. reflexivity.
Qed.

Lemma chunks_of_singletons (V : Type) (fuel : nat) :
  forall xs : list V, List.length xs < fuel ->
  chunks_of fuel 1 xs = map (fun x => [x]) xs.
Proof.
  induction fuel as [| fuel IH]; intros xs Hfuel; [lia |].
  destruct xs as [| x xs]; [reflexivity |].
  cbn [chunks_of firstn skipn map]. rewrite IH by (simpl in Hfuel; lia).
  reflexivity.
Qed.

Lemma chart_row_glyphs (weight : Z) (i : nat) (bucket : list Z) :
  chart_row weight i bucket =
  Returned
    (row_prefix i (sum bucket) (Z.of_nat (List.length bucket) - sum bucket)
     ++ join (map glyph_of (chunker (map Some bucket) weight)))%string.
Proof.
  unfold chart_row.
  rewrite (cells_glyphs (chunker_nonempty bucket weight)). cbn [bind].
  f_equal. unfold row_prefix. repeat rewrite string_app_assoc. reflexivity.
Qed.

Lemma chunker_length (V : Type) (xs : list V) (n : Z) : (1 <= n)%Z ->
  List.length (chunker (map Some xs) n) =
  (List.length xs + Z.to_nat n - 1) / Z.to_nat n.
Proof.
  intros Hn. rewrite chunker_chunks_of by exact Hn.
  apply chunks_of_length; lia.
Qed.

(** X2: a row of the chart.  For a cell weight of at least 1 the row of a
    bucket shows one glyph per chunk of the bucket, [ceil(len / weight)]
    of them, after the row's label and counts; the glyph is the solid
    green one exactly when twice the number of passed requests of the
    chunk is at least the size of the chunk, and the shaded red one
    otherwise. *)
Theorem chart_row_one_glyph_per_chunk
    (weight : Z) (i : nat) (bucket : list Z) :
  (1 <= weight)%Z ->
  chart_row weight i bucket =
    Returned
      (row_prefix i (sum bucket)
         (Z.of_nat (List.length bucket) - sum bucket)
       ++ join (map glyph_of (chunker (map Some bucket) weight)))%string /\
  List.length (chunker (map Some bucket) weight) =
    (List.length bucket + Z.to_nat weight - 1) / Z.to_nat weight.
Proof.
  intros Hw. split.
  - apply chart_row_glyphs.
  - apply chunker_length. exact Hw.
Qed.

Lemma chart_row_one_glyph_per_chunk_witness :
  chart_row 2 0 [1; 0; 0; 0; 1]%Z =
    Returned (row_prefix 0 2 3 ++ green_cell ++ red_cell ++ green_cell)%string.
Proof.
  destruct (@chart_row_one_glyph_per_chunk 2 0 [1; 0; 0; 0; 1]%Z) as [H _].
  - lia.
  - exact H.
Defined.

(** X3: with a cell weight of 1 the row of a bucket shows one glyph per
    request, in the order the requests were started: the solid green one
    for a request that passed, the shaded red one for a request that
    failed. *)
Theorem chart_row_weight_one (i : nat) (bucket : list Sample) :
  chart_row 1 i (map status01 bucket) =
  Returned
    (row_prefix i (Z.of_nat (List.length (filter status bucket)))
       (Z.of_nat
          (List.length (filter (fun s => negb (status s)) bucket)))
     ++ join (map (fun s => if status s then green_cell else red_cell)
                bucket))%string.
Proof.
  rewrite chart_row_glyphs, count_not_status, sum_status01.
  rewrite chunker_chunks_of by lia.
  rewrite chunks_of_singletons by (simpl; lia).
  rewrite !map_map. do 3 f_equal.
  apply map_ext. intros s. unfold status01.
  destruct (status s); reflexivity.
Qed.

(** X4: when the chart cannot be drawn.  [visualize_requests] raises
    [ValueError] on an empty sample list (the [max] of no bucket),
    [ZeroDivisionError] on a non-empty one with [columns = 0], and returns
    a chart in every other case. *)
Theorem visualize_requests_raises_only_on_empty_or_zero
    (timings : list Sample) (columns : Z) :
  (timings = [] -> visualize_requests timings columns = Raised ValueError) /\
  (timings <> [] -> columns = 0%Z ->
   visualize_requests timings columns = Raised ZeroDivisionError) /\
  (timings <> [] -> columns <> 0%Z ->
   exists chart, visualize_requests timings columns = Returned chart).
Proof.
  split; [| split].
  - intros ->. reflexivity.
  - intros Hne ->. unfold visualize_requests, max_requests_in_column,
      most_requests_in_second.
    pose proof (requests_per_second_nonempty Hne) as Hd.
    destruct (requests_per_second timings) as [| [k vs] d]; [congruence |].
    reflexivity.
  - intros Hne Hc.
    destruct (visualize_requests_returned Hne Hc) as [w [rows [_ [H _]]]].
    eexists. exact H.
Qed.

Lemma visualize_requests_raises_only_on_empty_or_zero_witness :
  visualize_requests example_timings 0 = Raised ZeroDivisionError /\
  exists chart, visualize_requests example_timings 3 = Returned chart.
Proof.
  split.
  - apply (@visualize_requests_raises_only_on_empty_or_zero
             example_timings 0%Z); [discriminate | reflexivity].
  - apply (@visualize_requests_raises_only_on_empty_or_zero
             example_timings 3%Z); discriminate.
Defined.

(** ** More on the buckets and the summary *)

Lemma sum_app (a b : list Z) : sum (a ++ b) = (sum a + sum b)%Z.
Proof.
  induction a as [| x a IH]; simpl app.
  - unfold sum at 2. simpl. lia.
  - rewrite !sum_cons, IH. lia.
Qed.

Lemma dict_append_totals (d : list (Z * list Z)) (k v : Z) :
  list_sum (map (@List.length Z) (values (dict_append d k v))) =
    S (list_sum (map (@List.length Z) (values d))) /\
  sum (List.concat (values (dict_append d k v))) =
    (sum (List.concat (values d)) + v)%Z /\
  (Forall (fun b => b <> []) (values d) ->
   Forall (fun b => b <> []) (values (dict_append d k v))).
Proof.
  induction d as [| [k' vs] d [IHlen [IHsum IHne]]].
  - simpl. split; [reflexivity | split].
    + unfold sum. simpl. lia.
    + intros _. repeat constructor. discriminate.
  - cbn [dict_append]. destruct (Z.eqb k' k).
    + unfold values, list_sum. cbn [map fold_right List.concat snd].
      rewrite length_app. cbn [List.length].
      split; [lia | split].
      * rewrite !sum_app. unfold sum at 2. simpl fold_left. lia.
      * intros H. inversion H; subst. constructor; [| assumption].
        destruct vs; discriminate.
    + unfold values, list_sum in *. cbn [map fold_right List.concat snd].
      rewrite IHlen. split; [lia | split].
      * rewrite !sum_app, IHsum. lia.
      * intros H. inversion H; subst. constructor; auto.
Qed.

Lemma sum_failed_flags (timings : list Sample) :
  sum (map (fun t => int_of_bool (negb (status t))) timings) =
  Z.of_nat (failures timings).
Proof.
  unfold failures.
  induction timings as [| t timings IH]; [reflexivity |].
  cbn [map filter]. rewrite sum_cons, IH.
  destruct (status t); cbn [negb int_of_bool List.length]; lia.
Qed.

Lemma failures_none (timings : list Sample) :
  failures timings = 0 <-> forallb status timings = true.
Proof.
  unfold failures.
  induction timings as [| t timings IH]; [simpl; tauto |].
  cbn [filter forallb]. destruct (status t); cbn [negb andb List.length].
  - exact IH.
  - split; [lia | discriminate].
Qed.

Lemma passed_plus_failed (timings : list Sample) :
  List.length (filter status timings) + failures timings =
  List.length timings.
Proof.
  unfold failures.
  induction timings as [| t timings IH]; [reflexivity |].
  cbn [filter]. destruct (status t); cbn [negb List.length]; lia.
Qed.

Lemma failures_snoc (timings : list Sample) (t : Sample) :
  failures (timings ++ [t]) =
  failures timings + (if status t then 0 else 1).
Proof.
  unfold failures. rewrite filter_app, length_app. cbn [filter].
  destruct (status t); reflexivity.
Qed.

(** X5: the buckets of the chart partition the samples.  Every bucket
    holds at least one request, the sizes of the buckets add up to the
    number of samples, and the passed requests counted over all buckets
    are the samples that did not fail: no request is lost or counted
    twice by the grouping. *)
Theorem buckets_partition_the_samples (timings : list Sample) :
  let buckets := values (requests_per_second timings) in
  Forall (fun b => b <> []) buckets /\
  list_sum (map (@List.length Z) buckets) = List.length timings /\
  sum (List.concat buckets) =
    (Z.of_nat (List.length timings) - Z.of_nat (failures timings))%Z.
Proof.
  cbv zeta.
  induction timings as [| t timings [IHne [IHlen IHsum]]] using rev_ind.
  - repeat split. constructor.
  - rewrite requests_per_second_snoc.
    destruct (dict_append_totals (requests_per_second timings)
                (second_of t) (status01 t)) as [Hlen [Hsum Hne]].
    split; [apply Hne, IHne | split].
    + rewrite Hlen, IHlen, length_app. simpl. lia.
    + rewrite Hsum, IHsum, length_app, failures_snoc.
      unfold status01. cbn [List.length].
      destruct (status t); cbn [int_of_bool]; lia.
Qed.

(** X6: the verdict of a performance test.  When the load function
    returns two samples or more for the deadline [now + TEST_DURATION],
    [do_performance_test] logs and returns the number of samples and the
    number of them that failed, and the test passes exactly when no sample
    failed; otherwise it raises [AssertionError]. *)
Theorem performance_test_passes_iff_no_failure
    (now : Q) (load_fn : Q -> option (Outcome (list Sample)))
    (timings : list Sample) :
  load_fn (now + TEST_DURATION)%Q = Some (Returned timings) ->
  2 <= List.length timings ->
  exists lines,
    do_performance_test now load_fn TEST_DURATION =
      Some (lines,
            Returned (List.length timings, Z.of_nat (failures timings))) /\
    test_endpoint_performance now load_fn =
      Some (lines,
            if forallb status timings then Returned tt
            else Raised AssertionError).
Proof.
  intros Hload Hlen.
  destruct (summarize_returned timings Hlen) as [took [chart [_ Hs]]].
  unfold test_endpoint_performance, do_performance_test.
  rewrite Hload, Hs. cbn [log fst snd].
  rewrite sum_failed_flags.
  eexists. split; [reflexivity |].
  f_equal. f_equal.
  destruct (forallb status timings) eqn:E.
  - apply failures_none in E. rewrite E. reflexivity.
  - destruct (Z.eqb_spec (Z.of_nat (failures timings)) 0) as [H0 | _];
      [| reflexivity].
    assert (Hn : failures timings = 0) by lia.
    apply failures_none in Hn. congruence.
Qed.

Lemma performance_test_passes_iff_no_failure_witness :
  exists lines,
    do_performance_test 0 (fun _ => Some (Returned example_timings))
      TEST_DURATION =
      Some (lines, Returned (4, 2%Z)) /\
    test_endpoint_performance 0 (fun _ => Some (Returned example_timings)) =
      Some (lines, Raised AssertionError).
Proof.
  apply (@performance_test_passes_iff_no_failure 0%Q
           (fun _ => Some (Returned example_timings)) example_timings).
  - reflexivity.
  - simpl. lia.
Defined.

(** ** More on the load functions *)

(** The first [k] iterations, when their requests come back and they are
    entered by the deadline. *)
Lemma loop_prefix (w : World) (e : Q) (k : nat) :
  forall (t s : nat) (timings : list Sample),
  let c := {| ticks := t; sent := s |} in
  (forall j, j < k -> (now_at w c j <= e)%Q) ->
  (forall j, j < k -> exists r, response_at w c j = Returned r) ->
  exists entries,
    List.length entries = k /\
    forall fuel,
      sequential_load_loop (k + fuel) w e c timings =
      sequential_load_loop fuel w e
        {| ticks := t + 2 * k; sent := s + k |} (timings ++ entries).
Proof.
  unfold now_at, response_at. cbn [ticks sent].
  induction k as [| k IH]; intros t s timings Hbefore Hresp.
  - exists []. split; [reflexivity |]. intros fuel.
    rewrite app_nil_r.
    replace (t + 2 * 0) with t by lia. replace (s + 0) with s by lia.
    reflexivity.
  - pose proof (Hbefore 0 ltac:(lia)) as H0.
    replace (t + 2 * 0) with t in H0 by lia.
    apply Qle_bool_iff in H0.
    destruct (Hresp 0 ltac:(lia)) as [r0 Hr0].
    replace (s + 0) with s in Hr0 by lia.
    destruct (IH (S (S t)) (S s)
                (timings ++
                 [timing_entry (monotonic w t)
                    (monotonic w (S t) - monotonic w t)%Q r0]))
      as [entries [Hlen Hrun]].
    + intros j Hj. replace (S (S t) + 2 * j) with (t + 2 * S j) by lia.
      apply Hbefore. lia.
    + intros j Hj. replace (S s + j) with (s + S j) by lia.
      apply Hresp. lia.
    + eexists (_ :: entries). split; [simpl; congruence |].
      intros fuel. cbn [Nat.add].
      cbn [sequential_load_loop time_monotonic send_request_fn ticks sent].
      rewrite H0. cbn [negb]. rewrite Hr0.
      rewrite Hrun, <- app_assoc. cbn [app].
      replace (S (S t) + 2 * k) with (t + 2 * S k) by lia.
      replace (S s + k) with (s + S k) by lia. reflexivity.
Qed.

(** What every run that returns has gone through. *)
Lemma loop_returned_inv (w : World) (e : Q) (fuel : nat) :
  forall (t s : nat) (timings result : list Sample) (c' : Calls),
  sequential_load_loop fuel w e {| ticks := t; sent := s |} timings =
    Some (Returned result, c') ->
  exists entries,
    result = timings ++ entries /\
    c' = {| ticks := t + 2 * List.length entries + 1;
            sent := s + List.length entries |} /\
    (e < monotonic w (t + 2 * List.length entries))%Q /\
    forall j, j < List.length entries ->
      (monotonic w (t + 2 * j) <= e)%Q /\
      exists x, nth_error entries j = Some x /\
                start_time x = monotonic w (t + 2 * j).
Proof.
  induction fuel as [| fuel IH]; intros t s timings result c' Hrun;
    [discriminate |].
  cbn [sequential_load_loop time_monotonic send_request_fn ticks sent]
    in Hrun.
  destruct (Qle_bool (monotonic w t) e) eqn:Hnow; cbn [negb] in Hrun.
  - destruct (request_function w s ENDPOINT_PATH) as [response | ex];
      [| discriminate].
    destruct (IH _ _ _ _ _ Hrun) as [entries [Hres [Hc [Hpast Hnth]]]].
    eexists (_ :: entries). cbn [List.length].
    split; [rewrite Hres, <- app_assoc; reflexivity |].
    split; [rewrite Hc; f_equal; lia |].
    split.
    + replace (t + 2 * S (List.length entries))
        with (S (S t) + 2 * List.length entries) by lia.
      exact Hpast.
    + intros [| j] Hj.
      * replace (t + 2 * 0) with t by lia.
        split; [apply Qle_bool_iff; exact Hnow |].
        eexists. split; [reflexivity | apply start_time_timing_entry].
      * replace (t + 2 * S j) with (S (S t) + 2 * j) by lia.
        apply Hnth. lia.
  - injection Hrun as <- <-. exists [].
    rewrite app_nil_r. cbn [List.length].
    replace (t + 2 * 0) with t by lia.
    split; [reflexivity |].
    split; [f_equal; lia |].
    split; [apply Qle_bool_false; exact Hnow | intros j Hj; lia].
Qed.

Lemma clock_monotone (w : World) :
  (forall n, (monotonic w n <= monotonic w (S n))%Q) ->
  forall a b, a <= b -> (monotonic w a <= monotonic w b)%Q.
Proof.
  intros Hstep a b Hab. induction Hab as [| b _ IH].
  - apply Qle_refl.
  - eapply Qle_trans; [exact IH | apply Hstep].
Qed.

Lemma ssorted_by_index (A : Type) (R : A -> A -> Prop) (l : list A) :
  (forall i j a b, i < j -> nth_error l i = Some a ->
                   nth_error l j = Some b -> R a b) ->
  StronglySorted R l.
Proof.
  induction l as [| x l IH]; intros H; constructor.
  - apply IH. intros i j a b Hij Ha Hb. apply (H (S i) (S j)); auto. lia.
  - apply Forall_forall. intros y Hy.
    destruct (In_nth_error _ _ Hy) as [j Hj].
    apply (H 0 (S j)); [lia | reflexivity | exact Hj].
Qed.

(** X7: an exception of the transport other than a timeout ends the run.
    When the request of iteration [k] raises it, the iterations before
    having recorded their samples, [sequential_load_function] raises that
    exception right after the request: the [k] samples recorded so far
    are not returned. *)
Theorem sequential_run_aborts_on_transport_error
    (w : World) (e : Q) (c : Calls) (k fuel : nat) (ex : Exception) :
  (forall j, j <= k -> (now_at w c j <= e)%Q) ->
  (forall j, j < k -> exists r, response_at w c j = Returned r) ->
  transport_at w c k = Raised ex ->
  ex <> RequestsTimeout ->
  k < fuel ->
  sequential_load_function fuel w c e =
    Some (Raised ex,
          {| ticks := ticks c + 2 * k + 1; sent := sent c + k + 1 |}).
Proof.
  intros Hbefore Hresp Hraise Hex Hfuel. destruct c as [t s].
  destruct (@loop_prefix w e k t s []) as [entries [_ Hrun]].
  - intros j Hj. apply Hbefore. lia.
  - exact Hresp.
  - unfold sequential_load_function.
    replace fuel with (k + S (fuel - S k)) by lia.
    rewrite Hrun.
    cbn [sequential_load_loop time_monotonic send_request_fn ticks sent].
    pose proof (Hbefore k ltac:(lia)) as Hk.
    unfold now_at in Hk. cbn [ticks] in Hk.
    apply Qle_bool_iff in Hk. rewrite Hk. cbn [negb].
    unfold transport_at in Hraise. cbn [sent] in Hraise.
    unfold request_function. rewrite Hraise.
    destruct ex; try contradiction; cbn [ticks sent];
      repeat f_equal; lia.
Qed.

Lemma sequential_run_aborts_on_transport_error_witness :
  sequential_load_function 5 refusing_world {| ticks := 0; sent := 0 |} 2%Q =
    Some (Raised RequestsConnectionError, {| ticks := 3; sent := 2 |}).
Proof.
  apply (@sequential_run_aborts_on_transport_error
           refusing_world 2%Q {| ticks := 0; sent := 0 |} 1 5
           RequestsConnectionError).
  - intros j Hj. destruct j as [| [| j]]; [| | lia];
      apply Qle_bool_iff; reflexivity.
  - intros j Hj. destruct j as [| j]; [| lia]. eexists. reflexivity.
  - reflexivity.
  - discriminate.
  - lia.
Defined.



(** X9: on a clock that never goes back, the samples the sequential
    strategy returns are in the order of their start times, as a
    [LoadResult] must be. *)
Theorem sequential_result_is_ordered
    (fuel : nat) (w : World) (c c' : Calls) (e : Q) (result : list Sample) :
  (forall n, (monotonic w n <= monotonic w (S n))%Q) ->
  sequential_load_function fuel w c e = Some (Returned result, c') ->
  StronglySorted (key_le start_time) result.
Proof.
  intros Hclock Hrun. destruct c as [t s].
  unfold sequential_load_function in Hrun.
  destruct (loop_returned_inv _ _ _ _ _ _ Hrun)
    as [entries [Hres [_ [_ Hnth]]]].
  cbn [app] in Hres. subst result.
  apply ssorted_by_index. intros i j a b Hij Ha Hb.
  assert (Hj : j < List.length entries)
    by (apply nth_error_Some; congruence).
  destruct (Hnth i ltac:(lia)) as [_ [x [Hx Hxs]]].
  destruct (Hnth j Hj) as [_ [y [Hy Hys]]].
  assert (x = a) by congruence. assert (y = b) by congruence. subst x y.
  unfold key_le. rewrite Hxs, Hys.
  apply clock_monotone; [exact Hclock | lia].
Qed.

Lemma sequential_result_is_ordered_witness :
  sequential_load_function 4
    (example_world serve_api_0ms_delay 0) {| ticks := 0; sent := 0 |} 1%Q =
    Some (Returned example_samples, {| ticks := 7; sent := 3 |}) /\
  StronglySorted (key_le start_time) example_samples.
Proof.
  split; [reflexivity |].
  apply (@sequential_result_is_ordered 4
           (example_world serve_api_0ms_delay 0)
           {| ticks := 0; sent := 0 |} {| ticks := 7; sent := 3 |}
           1%Q example_samples).
  - intros n. unfold example_world, monotonic.
    apply Qplus_le_r. apply Qmult_le_r; [reflexivity |].
    rewrite <- Zle_Qle. lia.
  - reflexivity.
Defined.

(** ** More on the concurrent strategy *)

Lemma join_all_outcomes (f : nat -> option (Outcome (list Sample) * Calls))
    (workers : list nat) (outs : list (Outcome (list Sample))) :
  Forall2 (fun i o => exists c', f i = Some (o, c')) workers outs ->
  join_all (map f workers) = Some outs.
Proof.
  induction 1 as [| i o workers outs [c' Hi] _ IH]; simpl.
  - reflexivity.
  - rewrite Hi, IH. reflexivity.
Qed.

Lemma join_all_inv (f : nat -> option (Outcome (list Sample) * Calls))
    (workers : list nat) :
  forall outs, join_all (map f workers) = Some outs ->
  Forall2 (fun i o => exists c', f i = Some (o, c')) workers outs.
Proof.
  induction workers as [| i workers IH]; simpl; intros outs H.
  - injection H as <-. constructor.
  - destruct (f i) as [[o c'] |] eqn:Hi; [| discriminate].
    destruct (join_all (map f workers)) as [rs |]; [| discriminate].
    injection H as <-. constructor; [exists c'; exact Hi | apply IH].
    reflexivity.
Qed.

Lemma join_all_unfinished
    (f : nat -> option (Outcome (list Sample) * Calls))
    (workers : list nat) (i : nat) :
  In i workers -> f i = None -> join_all (map f workers) = None.
Proof.
  induction workers as [| x workers IH]; intros Hin Hi; [destruct Hin |].
  simpl. destruct Hin as [-> | Hin].
  - rewrite Hi. reflexivity.
  - destruct (f x) as [[o c'] |]; [| reflexivity].
    rewrite IH by assumption. reflexivity.
Qed.

Lemma gather_raised (before : list (list Sample)) (ex : Exception)
    (rest : list (Outcome (list Sample))) :
  forall timings,
  gather (map (@Returned _) before ++ Raised ex :: rest) timings = Raised ex.
Proof.
  induction before as [| r before IH]; intros timings; simpl.
  - reflexivity.
  - apply IH.
Qed.

Lemma gather_inv (outs : list (Outcome (list Sample))) :
  forall acc timings,
  gather outs acc = Returned timings ->
  exists results,
    outs = map (@Returned _) results /\
    timings = acc ++ List.concat results.
Proof.
  induction outs as [| [r | ex] outs IH]; simpl; intros acc timings H.
  - injection H as <-. exists []. rewrite app_nil_r. split; reflexivity.
  - destruct (IH _ _ H) as [results [-> ->]].
    exists (r :: results). simpl. rewrite app_assoc. split; reflexivity.
  - discriminate.
Qed.

(** X10: the concurrent strategy returns samples only when every worker
    returned.  If a worker raises, the workers submitted before it having
    returned, the strategy raises that worker's exception and the samples
    of all workers are lost; if a worker does not come back, neither does
    the strategy. *)
Theorem concurrent_run_needs_every_worker
    (fuel : nat) (worlds : nat -> World) (e : Q) :
  (forall outs before ex rest,
      Forall2
        (fun i o =>
           exists c',
             sequential_load_function fuel (worlds i)
               {| ticks := 0; sent := 0 |} e = Some (o, c'))
        (seq 0 TEST_CONCURRENCY) outs ->
      outs = map (@Returned _) before ++ Raised ex :: rest ->
      concurrent_load_function fuel worlds e = Some (Raised ex)) /\
  (forall i,
      i < TEST_CONCURRENCY ->
      sequential_load_function fuel (worlds i)
        {| ticks := 0; sent := 0 |} e = None ->
      concurrent_load_function fuel worlds e = None).
Proof.
  split.
  - intros outs before ex rest Hworkers ->.
    unfold concurrent_load_function.
    rewrite (join_all_outcomes _ Hworkers), gather_raised. reflexivity.
  - intros i Hi Hnone. unfold concurrent_load_function.
    rewrite (@join_all_unfinished _ _ i); [reflexivity | | exact Hnone].
    apply in_seq. lia.
Qed.

Lemma concurrent_run_needs_every_worker_witness :
  concurrent_load_function 8 refusing_worlds 1%Q =
    Some (Raised RequestsConnectionError) /\
  concurrent_load_function 2 example_worlds 1%Q = None.
Proof.
  split.
  - apply (proj1 (@concurrent_run_needs_every_worker 8 refusing_worlds 1%Q)
             [Returned (nth 0 example_results []);
              Raised RequestsConnectionError;
              Returned (nth 2 example_results [])]
             [nth 0 example_results []] RequestsConnectionError
             [Returned (nth 2 example_results [])]).
    + repeat constructor; eexists; reflexivity.
    + reflexivity.
  - apply (proj2 (@concurrent_run_needs_every_worker 2 example_worlds 1%Q) 0).
    + unfold TEST_CONCURRENCY, SERVER_WORKERS. lia.
    + reflexivity.
Defined.

(** X11: whatever the workers did, the samples the concurrent strategy
    returns were all started at or before the deadline, and they are in
    the order of their start times. *)
Theorem concurrent_result_by_deadline_and_ordered
    (fuel : nat) (worlds : nat -> World) (e : Q) (merged : list Sample) :
  concurrent_load_function fuel worlds e = Some (Returned merged) ->
  Forall (fun s => (start_time s <= e)%Q) merged /\
  StronglySorted (key_le start_time) merged.
Proof.
  unfold concurrent_load_function. intros Hrun.
  destruct (join_all _) as [outs |] eqn:Hjoin; [| discriminate].
  apply join_all_inv in Hjoin.
  destruct (gather outs []) as [timings | ex] eqn:Hgather;
    [| discriminate].
  cbn [bind] in Hrun. injection Hrun as <-.
  split; [| apply sorted_sorted].
  destruct (gather_inv _ _ Hgather) as [results [-> ->]]. cbn [app].
  eapply Permutation_Forall; [symmetry; apply sorted_perm |].
  apply Forall_concat.
  clear Hgather. revert Hjoin. generalize (seq 0 TEST_CONCURRENCY).
  induction results as [| r results IH]; intros workers Hjoin;
    [constructor |].
  inversion Hjoin as [| i o workers' outs' [c' Hi] Hrest]; subst.
  constructor; [| eapply IH; exact Hrest].
  unfold sequential_load_function in Hi.
  eapply loop_starts_by_deadline; [constructor | exact Hi].
Qed.

Lemma concurrent_result_by_deadline_and_ordered_witness :
  Forall (fun s => (start_time s <= 1)%Q)
    (sorted start_time (List.concat example_results)) /\
  StronglySorted (key_le start_time)
    (sorted start_time (List.concat example_results)).
Proof.
  apply (@concurrent_result_by_deadline_and_ordered 8 example_worlds 1%Q).
  reflexivity.
Defined.

(** ** More on the functional tests and the service *)

Section FunctionalFacts.
Variable env : Api.Environ.
Variable latency : nat -> Q.

Let send := request_function (live_world env latency).

Lemma route_cases (endpoint : string) :
  Api.route endpoint = Some Api.make_response \/ Api.route endpoint = None.
Proof.
  unfold Api.route.
  destruct (String.eqb endpoint "people"); [left; reflexivity |].
  destruct (String.eqb endpoint "planets"); [left; reflexivity |].
  destruct (String.eqb endpoint "starships"); [left | right]; reflexivity.
Qed.



End FunctionalFacts.


(** X13: a request that times out makes the functional test raise
    [AttributeError], whichever of its thirteen requests it is: the test
    reads [status_code] off the [None] that [request_function] returns. *)
Theorem endpoint_assertions_raise_on_timeout
    (latency : nat -> Q) (endpoint : string) (n : nat) :
  In endpoint ["people"; "planets"; "starships"] ->
  n <= 12 ->
  Functional.do_endpoint_assertions
    (request_function (world_with_timeout serve_api_0ms_delay latency n))
    endpoint = Raised AttributeError.
Proof.
  intros Hin Hn. simpl in Hin.
  destruct Hin as [<- | [<- | [<- | []]]];
    do 13 (destruct n as [| n]; [vm_compute; reflexivity |]); lia.
Qed.

Lemma endpoint_assertions_raise_on_timeout_witness :
  Functional.do_endpoint_assertions
    (request_function
       (world_with_timeout serve_api_0ms_delay (fun _ => 0%Q) 7))
    "planets" = Raised AttributeError.
Proof.
  apply (@endpoint_assertions_raise_on_timeout (fun _ => 0%Q) "planets" 7).
  - right; left; reflexivity.
  - lia.
Defined.

Lemma MAX_DELAY_nonneg (env : Api.Environ) : (0 <= Api.MAX_DELAY env)%Q.
Proof. unfold Api.MAX_DELAY. apply Q.le_max_l. Qed.

(** X14: the artificial delay and the overload reply.  [MAX_DELAY] is
    never negative, and a configured value of zero or less (or none)
    leaves it at zero.  A request is answered 503 exactly when its
    endpoint is routed, its id is within the limit, [MAX_DELAY] is not
    zero and the sleep is cancelled: never when the delay is off, and
    never for an id above the limit, which is answered 404 before any
    sleep. *)
Theorem overload_reply_needs_a_delay
    (env : Api.Environ) (cancelled : bool) (endpoint : string) (i : Z) :
  (0 <= Api.MAX_DELAY env)%Q /\
  (match Api.env_MAX_DELAY env with
   | Some d => (d <= 0)%Q
   | None => True
   end -> (Api.MAX_DELAY env == 0)%Q) /\
  (Api.status_code (Api.app env cancelled (Api.WithId endpoint i)) = 503%Z
   <-> routed endpoint = true /\ (i <= Api.ID_LIMIT env)%Z /\
       ~ (Api.MAX_DELAY env == 0)%Q /\ cancelled = true).
Proof.
  split; [apply MAX_DELAY_nonneg |]. split.
  - unfold Api.MAX_DELAY, Api.getenv.
    destruct (Api.env_MAX_DELAY env) as [d |]; intros H.
    + apply Q.max_l. exact H.
    + reflexivity.
  - unfold Api.app, routed.
    destruct (route_cases endpoint) as [-> | ->].
    + unfold Api.make_response.
      destruct (Z.ltb_spec (Api.ID_LIMIT env) i) as [Hgt | Hle].
      * cbn [Api.status_code]. split; [discriminate | intros [_ [H _]]; lia].
      * destruct (Qeq_bool (Api.MAX_DELAY env) 0) eqn:Hd; cbn [negb andb].
        -- cbn [Api.status_code]. apply Qeq_bool_iff in Hd.
           split; [discriminate | intros [_ [_ [H _]]]; contradiction].
        -- destruct cancelled; cbn [Api.status_code].
           ++ split; [| reflexivity]. intros _.
              repeat split; [exact Hle |].
              intros H. apply Qeq_bool_iff in H. congruence.
           ++ split; [discriminate | intros [_ [_ [_ H]]]; discriminate].
    + cbn [Api.not_found Api.status_code].
      split; [discriminate | intros [H _]; discriminate].
Qed.

Lemma overload_reply_needs_a_delay_witness :
  (Api.MAX_DELAY {| Api.env_ID_LIMIT := None;
                    Api.env_MAX_DELAY := Some (-1 # 2)%Q |} == 0)%Q /\
  Api.status_code
    (Api.app serve_api_10ms_delay true (Api.WithId "people" 3)) = 503%Z.
Proof.
  split.
  - apply (@overload_reply_needs_a_delay
             {| Api.env_ID_LIMIT := None;
                Api.env_MAX_DELAY := Some (-1 # 2)%Q |} true "people" 0%Z).
    simpl. discriminate.
  - apply (@overload_reply_needs_a_delay serve_api_10ms_delay true
             "people" 3%Z).
    repeat split; [vm_compute; discriminate | discriminate].
Defined.

(** ** The wait for the server *)

Section StartupFacts.
Import Startup.
Variable w : World.
Variable stderr : nat -> option string.
Variable timeout_at : Q.

Lemma string_app_nil_r (s : string) : (s ++ "")%string = s.
Proof. induction s as [| c s IH]; simpl; congruence. Qed.

Lemma delivers_tail (from : nat) (ch : string) (chunks : list string) :
  delivers stderr from (ch :: chunks) ->
  stderr from = Some ch /\ delivers stderr (S from) chunks.
Proof.
  intros H. split.
  - specialize (H 0 ltac:(simpl; lia)). rewrite Nat.add_0_r in H. exact H.
  - intros j Hj. specialize (H (S j) ltac:(simpl; lia)).
    replace (S from + j) with (from + S j) by lia. exact H.
Qed.

Lemma in_time_tail (tick n : nat) :
  in_time w timeout_at tick (S n) ->
  Qle_bool (monotonic w tick) timeout_at = true /\
  in_time w timeout_at (S tick) n.
Proof.
  intros H. split.
  - apply Qle_bool_iff. specialize (H 0 ltac:(lia)).
    rewrite Nat.add_0_r in H. exact H.
  - intros j Hj. specialize (H (S j) ltac:(lia)).
    replace (S tick + j) with (tick + S j) by lia. exact H.
Qed.

(** The loop over reads that leave fewer than [SERVER_WORKERS] workers
    counted. *)
Lemma wait_loop_reads (chunks : list string) :
  forall (fuel tick reads : nat) (acc : string) (ready : nat),
  delivers stderr reads chunks ->
  in_time w timeout_at tick (List.length chunks) ->
  ready + markers_from acc chunks < SERVER_WORKERS ->
  wait_loop (List.length chunks + fuel) w stderr timeout_at tick reads
    acc ready =
  wait_loop fuel w stderr timeout_at
    (tick + List.length chunks) (reads + List.length chunks)
    (acc ++ join chunks)
    (ready + markers_from acc chunks).
Proof.
  induction chunks as [| ch chunks IH];
    intros fuel tick reads acc ready Hd Ht Hready.
  - cbn [List.length markers_from join fold_right Nat.add].
    rewrite string_app_nil_r, !Nat.add_0_r. reflexivity.
  - destruct (delivers_tail Hd) as [Hch Hd'].
    destruct (in_time_tail Ht) as [Hnow Ht'].
    cbn [List.length Nat.add wait_loop]. rewrite Hnow, Hch. cbn [negb].
    cbn [markers_from] in Hready.
    set (ready' := if endswith (acc ++ ch) STARTUP_COMPLETE
                   then ready + 1 else ready).
    assert (Hr : ready' =
                 ready + (if endswith (acc ++ ch) STARTUP_COMPLETE
                          then 1 else 0)).
    { unfold ready'. destruct (endswith _ _); lia. }
    destruct (Nat.leb_spec SERVER_WORKERS ready') as [Hge | Hlt]; [lia |].
    rewrite IH by (try assumption; lia).
    change (join (ch :: chunks)) with (ch ++ join chunks)%string.
    cbn [markers_from].
    rewrite string_app_assoc. f_equal; lia.
Qed.

Lemma wait_loop_hangs (fuel : nat) :
  forall (chunks : list string) (tick reads : nat) (acc : string)
         (ready : nat),
  delivers stderr reads chunks ->
  stderr (reads + List.length chunks) = None ->
  in_time w timeout_at tick (List.length chunks + 1) ->
  ready + markers_from acc chunks < SERVER_WORKERS ->
  wait_loop fuel w stderr timeout_at tick reads acc ready = None.
Proof.
  induction fuel as [| fuel IH];
    intros chunks tick reads acc ready Hd Hnone Ht Hready; [reflexivity |].
  destruct chunks as [| ch chunks].
  - cbn [List.length Nat.add] in *. rewrite Nat.add_0_r in Hnone.
    destruct (in_time_tail Ht) as [Hnow _].
    cbn [wait_loop]. rewrite Hnow, Hnone. reflexivity.
  - destruct (delivers_tail Hd) as [Hch Hd'].
    cbn [List.length Nat.add] in Ht, Hnone.
    destruct (in_time_tail Ht) as [Hnow Ht'].
    cbn [wait_loop]. rewrite Hnow, Hch. cbn [negb].
    cbn [markers_from] in Hready.
    set (ready' := if endswith (acc ++ ch) STARTUP_COMPLETE
                   then ready + 1 else ready).
    assert (Hr : ready' =
                 ready + (if endswith (acc ++ ch) STARTUP_COMPLETE
                          then 1 else 0)).
    { unfold ready'. destruct (endswith _ _); lia. }
    destruct (Nat.leb_spec SERVER_WORKERS ready') as [Hge | Hlt]; [lia |].
    apply (IH chunks); try assumption.
    + replace (S reads + List.length chunks)
        with (reads + S (List.length chunks)) by lia. exact Hnone.
    + lia.
Qed.

Lemma wait_loop_started_inv (fuel : nat) :
  forall (tick reads : nat) (acc : string) (ready : nat) (out : string),
  ready < SERVER_WORKERS ->
  wait_loop fuel w stderr timeout_at tick reads acc ready =
    Some (Started out) ->
  endswith out STARTUP_COMPLETE = true.
Proof.
  induction fuel as [| fuel IH]; intros tick reads acc ready out Hready H;
    [discriminate |].
  cbn [wait_loop] in H.
  destruct (negb (Qle_bool (monotonic w tick) timeout_at)); [discriminate |].
  destruct (stderr reads) as [ch |]; [| discriminate].
  destruct (endswith (acc ++ ch) STARTUP_COMPLETE) eqn:E.
  - destruct (Nat.leb_spec SERVER_WORKERS (ready + 1)) as [Hge | Hlt].
    + injection H as <-. exact E.
    + apply (IH _ _ _ _ _ Hlt H).
  - destruct (Nat.leb_spec SERVER_WORKERS ready) as [Hge | Hlt]; [lia |].
    apply (IH _ _ _ _ _ Hlt H).
Qed.

Lemma wait_loop_timeout_inv (fuel : nat) :
  forall (tick reads : nat) (acc : string) (ready : nat),
  wait_loop fuel w stderr timeout_at tick reads acc ready =
    Some TimeoutError ->
  exists n, tick <= n /\ (timeout_at < monotonic w n)%Q.
Proof.
  induction fuel as [| fuel IH]; intros tick reads acc ready H;
    [discriminate |].
  cbn [wait_loop] in H.
  destruct (Qle_bool (monotonic w tick) timeout_at) eqn:Hnow;
    cbn [negb] in H.
  - destruct (stderr reads) as [ch |]; [| discriminate].
    destruct (Nat.leb SERVER_WORKERS _); [discriminate |].
    destruct (IH _ _ _ _ H) as [n [Hn Hpast]].
    exists n. split; [lia | exact Hpast].
  - exists tick. split; [lia |]. apply Qle_bool_false. exact Hnow.
Qed.

Lemma markers_from_app (a b : list string) :
  forall acc,
  markers_from acc (a ++ b) =
  markers_from acc a + markers_from (acc ++ join a) b.
Proof.
  induction a as [| ch a IH]; intros acc.
  - cbn [app markers_from join fold_right Nat.add].
    rewrite string_app_nil_r. reflexivity.
  - change (join (ch :: a)) with (ch ++ join a)%string.
    cbn [app markers_from]. rewrite IH.
    rewrite string_app_assoc. lia.
Qed.

Lemma delivers_app (from : nat) (a b : list string) :
  delivers stderr from (a ++ b) ->
  delivers stderr from a /\ delivers stderr (from + List.length a) b.
Proof.
  intros H. split.
  - intros j Hj. rewrite (H j) by (rewrite length_app; lia).
    rewrite app_nth1 by exact Hj. reflexivity.
  - intros j Hj. rewrite <- Nat.add_assoc.
    rewrite (H (List.length a + j)) by (rewrite length_app; lia).
    rewrite app_nth2 by lia.
    replace (List.length a + j - List.length a) with j by lia.
    reflexivity.
Qed.
End StartupFacts.

Section StartupTheorems.
Import Startup.

Lemma delivers_then_silent (chunks : list string) :
  delivers (then_silent chunks) 0 chunks.
Proof.
  intros j Hj. unfold then_silent. cbn [Nat.add].
  apply nth_error_nth'. exact Hj.
Qed.

Lemma delivers_then_closed (chunks : list string) :
  delivers (then_closed chunks) 0 (chunks ++ [EmptyString]).
Proof.
  intros j Hj. unfold then_closed. cbn [Nat.add]. f_equal.
  rewrite length_app in Hj. cbn [List.length] in Hj.
  destruct (Nat.lt_ge_cases j (List.length chunks)) as [Hlt | Hge].
  - rewrite app_nth1 by exact Hlt. reflexivity.
  - rewrite nth_overflow by exact Hge.
    rewrite app_nth2 by exact Hge.
    replace (j - List.length chunks) with 0 by lia. reflexivity.
Qed.

Lemma join_snoc (l : list string) (ch : string) :
  join (l ++ [ch]) = (join l ++ ch)%string.
Proof.
  induction l as [| x l IH].
  - cbn. apply string_app_nil_r.
  - change (join ((x :: l) ++ [ch])) with (x ++ join (l ++ [ch]))%string.
    change (join (x :: l)) with (x ++ join l)%string.
    rewrite string_app_assoc, IH. reflexivity.
Qed.

Lemma in_time_still (timeout_at : Q) (tick n : nat) :
  (0 <= timeout_at)%Q -> in_time still_world timeout_at tick n.
Proof. intros H j _. exact H. Qed.
End StartupTheorems.

(** X15: when the wait for the server ends well.  If the reads of the
    server's stderr come back in time and the last of them is the first
    to bring the count of outputs ending with the line of a ready worker
    to [SERVER_WORKERS], the wait ends there and has consumed exactly what
    those reads returned, nothing after it. *)
Theorem wait_ends_with_the_last_worker
    (fuel : nat) (w : World) (stderr : nat -> option string)
    (chunks : list string) (ch : string) :
  Startup.delivers stderr 0 (chunks ++ [ch]) ->
  Startup.in_time w (monotonic w 0 + 10)%Q 1 (List.length chunks + 1) ->
  Startup.markers_from "" chunks < SERVER_WORKERS ->
  SERVER_WORKERS <= Startup.markers_from "" (chunks ++ [ch]) ->
  List.length chunks < fuel ->
  Startup.wait_for_startup fuel w stderr =
    Some (Startup.Started (join (chunks ++ [ch]))).
Proof.
  intros Hd Ht Hbefore Hafter Hfuel.
  destruct (@delivers_app stderr 0 chunks [ch] Hd) as [Hd1 Hd2].
  unfold Startup.wait_for_startup.
  replace fuel with (List.length chunks + S (fuel - S (List.length chunks)))
    by lia.
  rewrite (@wait_loop_reads w stderr _ chunks); try assumption.
  - cbn [Nat.add Startup.wait_loop append].
    specialize (Ht (List.length chunks) ltac:(lia)).
    cbn [Nat.add] in Ht.
    apply Qle_bool_iff in Ht. rewrite Ht. cbn [negb].
    specialize (Hd2 0 ltac:(simpl; lia)).
    rewrite Nat.add_0_r in Hd2. cbn [nth Nat.add] in Hd2. rewrite Hd2.
    rewrite markers_from_app in Hafter.
    cbn [Startup.markers_from append] in Hafter.
    destruct (Startup.endswith (join chunks ++ ch) Startup.STARTUP_COMPLETE).
    + destruct (Nat.leb_spec SERVER_WORKERS
                  (Startup.markers_from "" chunks + 1)) as [_ | Hlt];
        [| lia].
      rewrite join_snoc. reflexivity.
    + lia.
  - intros j Hj. apply Ht. lia.
Qed.

Lemma wait_ends_with_the_last_worker_witness :
  Startup.wait_for_startup 100 still_world
    (Startup.then_silent
       (Startup.chars
          (Startup.STARTUP_COMPLETE ++ Startup.STARTUP_COMPLETE))) =
  Some (Startup.Started
          (Startup.STARTUP_COMPLETE ++ Startup.STARTUP_COMPLETE)).
Proof.
  apply (@wait_ends_with_the_last_worker 100 still_world
           (Startup.then_silent
              (Startup.chars
                 (Startup.STARTUP_COMPLETE ++ Startup.STARTUP_COMPLETE)))
           (Startup.chars
              (Startup.STARTUP_COMPLETE ++ "Application startup complete."))
           nl).
  - apply (delivers_then_silent
             (Startup.chars
                (Startup.STARTUP_COMPLETE ++ Startup.STARTUP_COMPLETE))).
  - apply in_time_still. vm_compute. discriminate.
  - vm_compute. lia.
  - vm_compute. lia.
  - vm_compute. lia.
Defined.

(** X16: the timeout of the wait.  [TimeoutError] is raised at the first
    reading of the clock past [timeout_at] that the loop makes before the
    workers are counted ready, whatever the server would still write; and
    it is raised in no other case: a wait that ends with [TimeoutError]
    has read the clock past [timeout_at]. *)
Theorem wait_times_out_at_a_late_check
    (fuel : nat) (w : World) (stderr : nat -> option string)
    (chunks : list string) :
  (Startup.delivers stderr 0 chunks ->
   Startup.in_time w (monotonic w 0 + 10)%Q 1 (List.length chunks) ->
   Startup.markers_from "" chunks < SERVER_WORKERS ->
   (monotonic w 0 + 10 < monotonic w (1 + List.length chunks))%Q ->
   List.length chunks < fuel ->
   Startup.wait_for_startup fuel w stderr = Some Startup.TimeoutError) /\
  (Startup.wait_for_startup fuel w stderr = Some Startup.TimeoutError ->
   exists n, 1 <= n /\ (monotonic w 0 + 10 < monotonic w n)%Q).
Proof.
  split.
  - intros Hd Ht Hbefore Hlate Hfuel.
    unfold Startup.wait_for_startup.
    replace fuel with (List.length chunks + S (fuel - S (List.length chunks)))
      by lia.
    rewrite (@wait_loop_reads w stderr _ chunks); try assumption.
    cbn [Startup.wait_loop].
    apply Qle_bool_false in Hlate. rewrite Hlate. reflexivity.
  - apply wait_loop_timeout_inv.
Qed.

Lemma wait_times_out_at_a_late_check_witness :
  Startup.wait_for_startup 5 slow_world
    (Startup.then_silent (Startup.chars Startup.STARTUP_COMPLETE)) =
  Some Startup.TimeoutError.
Proof.
  apply (proj1 (@wait_times_out_at_a_late_check 5 slow_world
                  (Startup.then_silent (Startup.chars Startup.STARTUP_COMPLETE))
                  ["A"])).
  - intros j Hj. destruct j as [| j]; [reflexivity | simpl in Hj; lia].
  - intros j Hj. destruct j as [| j]; [| simpl in Hj; lia].
    apply Qle_bool_iff. reflexivity.
  - vm_compute. lia.
  - reflexivity.
  - simpl. lia.
Defined.

(** X17: the timeout does not cover a read that blocks.  If the server
    stops writing before its workers are counted ready and keeps its
    stderr open, the wait neither ends nor raises [TimeoutError], however
    far the clock goes on: the clock is only read between two reads of
    the stream. *)
Theorem wait_hangs_on_a_silent_server
    (fuel : nat) (w : World) (stderr : nat -> option string)
    (chunks : list string) :
  Startup.delivers stderr 0 chunks ->
  stderr (List.length chunks) = None ->
  Startup.in_time w (monotonic w 0 + 10)%Q 1 (List.length chunks + 1) ->
  Startup.markers_from "" chunks < SERVER_WORKERS ->
  Startup.wait_for_startup fuel w stderr = None.
Proof.
  intros Hd Hnone Ht Hbefore.
  unfold Startup.wait_for_startup.
  apply (@wait_loop_hangs w stderr _ fuel chunks); assumption.
Qed.

Lemma wait_hangs_on_a_silent_server_witness :
  Startup.wait_for_startup 1000 still_world
    (Startup.then_silent (Startup.chars Startup.STARTUP_COMPLETE)) = None.
Proof.
  apply (@wait_hangs_on_a_silent_server 1000 still_world
           (Startup.then_silent (Startup.chars Startup.STARTUP_COMPLETE))
           (Startup.chars Startup.STARTUP_COMPLETE)).
  - apply delivers_then_silent.
  - reflexivity.
  - apply in_time_still. vm_compute. discriminate.
  - vm_compute. lia.
Defined.

(** X18: a closed stderr is counted as a ready worker.  If the stream
    ends right after the line of a ready worker, one worker short of
    [SERVER_WORKERS], the next read returns the empty string, the output
    still ends with that line, and the wait ends well: the server is
    taken as started with one worker fewer than expected. *)
Theorem wait_counts_the_end_of_the_stream
    (fuel : nat) (w : World) (chunks : list string) :
  Startup.in_time w (monotonic w 0 + 10)%Q 1 (List.length chunks + 1) ->
  Startup.markers_from "" chunks + 1 = SERVER_WORKERS ->
  Startup.endswith (join chunks) Startup.STARTUP_COMPLETE = true ->
  List.length chunks < fuel ->
  Startup.wait_for_startup fuel w (Startup.then_closed chunks) =
    Some (Startup.Started (join chunks)).
Proof.
  intros Ht Hone Hends Hfuel.
  destruct (@delivers_app (Startup.then_closed chunks) 0 chunks [""]
              (delivers_then_closed chunks)) as [Hd1 Hd2].
  unfold Startup.wait_for_startup.
  replace fuel with (List.length chunks + S (fuel - S (List.length chunks)))
    by lia.
  rewrite (@wait_loop_reads w _ _ chunks); try assumption; try lia.
  - cbn [Nat.add Startup.wait_loop append].
    specialize (Ht (List.length chunks) ltac:(lia)). cbn [Nat.add] in Ht.
    apply Qle_bool_iff in Ht. rewrite Ht. cbn [negb].
    specialize (Hd2 0 ltac:(simpl; lia)).
    rewrite Nat.add_0_r in Hd2. cbn [nth Nat.add] in Hd2. rewrite Hd2.
    rewrite string_app_nil_r, Hends.
    destruct (Nat.leb_spec SERVER_WORKERS
                (Startup.markers_from "" chunks + 1)) as [_ | Hlt]; [| lia].
    reflexivity.
  - intros j Hj. apply Ht. lia.
Qed.

Lemma wait_counts_the_end_of_the_stream_witness :
  Startup.wait_for_startup 100 still_world
    (Startup.then_closed (Startup.chars Startup.STARTUP_COMPLETE)) =
  Some (Startup.Started Startup.STARTUP_COMPLETE).
Proof.
  apply (@wait_counts_the_end_of_the_stream 100 still_world
           (Startup.chars Startup.STARTUP_COMPLETE)).
  - apply in_time_still. vm_compute. discriminate.
  - reflexivity.
  - reflexivity.
  - vm_compute. lia.
Defined.

(** X19: a wait that ends well has read an output that ends with the line
    of a ready worker: not a character of the server's stderr is consumed
    past the line that made the count. *)
Theorem wait_stops_reading_at_the_ready_line
    (fuel : nat) (w : World) (stderr : nat -> option string)
    (out : string) :
  Startup.wait_for_startup fuel w stderr = Some (Startup.Started out) ->
  Startup.endswith out Startup.STARTUP_COMPLETE = true.
Proof.
  unfold Startup.wait_for_startup.
  apply wait_loop_started_inv.
  unfold SERVER_WORKERS. lia.
Qed.

Lemma wait_stops_reading_at_the_ready_line_witness :
  Startup.endswith
    (Startup.STARTUP_COMPLETE ++ Startup.STARTUP_COMPLETE)
    Startup.STARTUP_COMPLETE = true.
Proof.
  apply (@wait_stops_reading_at_the_ready_line 100 still_world
           (Startup.then_silent
              (Startup.chars
                 (Startup.STARTUP_COMPLETE ++ Startup.STARTUP_COMPLETE
                  ++ "later")))).
  reflexivity.
Defined.

(** ** The access log *)

Section AccessLogFacts.
Import Startup.

Lemma existsb_eqb_In_string (x : string) (l : list string) :
  existsb (String.eqb x) l = true <-> In x l.
Proof.
  rewrite existsb_exists. split.
  - intros [y [Hin Heq]]. apply String.eqb_eq in Heq. subst. exact Hin.
  - intros Hin. exists x. split; [exact Hin | apply String.eqb_refl].
Qed.

Lemma absent_app (a b : list string) (x : string) :
  absent (a ++ b) x = absent a x && absent b x.
Proof.
  unfold absent. rewrite existsb_app, negb_orb. reflexivity.
Qed.

Lemma filter_filter (A : Type) (f g : A -> bool) (l : list A) :
  filter f (filter g l) = filter (fun x => g x && f x) l.
Proof.
  induction l as [| x l IH]; [reflexivity |].
  cbn [filter]. destruct (g x); cbn [filter andb]; rewrite IH; reflexivity.
Qed.

(** Starting from the keys [acc], the dict ends with [acc] followed by
    the new keys, each where it is first met. *)
Lemma fromkeys_from (lines : list string) :
  forall acc,
  fold_left
    (fun d line => if existsb (String.eqb line) d then d else d ++ [line])
    lines acc =
  acc ++ filter (absent acc) (dict_fromkeys lines).
Proof.
  unfold dict_fromkeys.
  induction lines as [| x lines IH]; intros acc.
  - cbn. rewrite app_nil_r. reflexivity.
  - cbn [fold_left existsb app].
    rewrite (IH [x]). cbn [app filter].
    change (absent acc x) with (negb (existsb (String.eqb x) acc)).
    destruct (existsb (String.eqb x) acc) eqn:E; cbn [negb].
    + rewrite IH, filter_filter. f_equal.
      apply filter_ext_in. intros y _.
      unfold absent. cbn [existsb]. rewrite orb_false_r.
      destruct (String.eqb_spec y x) as [-> | _]; [| reflexivity].
      rewrite E. reflexivity.
    + rewrite IH, <- app_assoc. cbn [app]. do 2 f_equal.
      rewrite filter_filter. apply filter_ext. intros y.
      rewrite absent_app, andb_comm. reflexivity.
Qed.

Lemma fromkeys_cons (x : string) (lines : list string) :
  dict_fromkeys (x :: lines) =
  x :: filter (absent [x]) (dict_fromkeys lines).
Proof.
  unfold dict_fromkeys at 1. cbn [fold_left existsb].
  rewrite fromkeys_from. reflexivity.
Qed.

Lemma fromkeys_In (lines : list string) (x : string) :
  In x (dict_fromkeys lines) <-> In x lines.
Proof.
  induction lines as [| y lines IH]; [reflexivity |].
  rewrite fromkeys_cons. cbn [In]. rewrite filter_In, IH.
  unfold absent. cbn [existsb]. rewrite orb_false_r.
  destruct (String.eqb_spec x y) as [-> | Hne]; cbn [negb].
  - split; [left; reflexivity | left; reflexivity].
  - split.
    + intros [-> | [H _]]; [congruence | right; exact H].
    + intros [-> | H]; [congruence | right; split; [exact H | reflexivity]].
Qed.

Lemma fromkeys_NoDup (lines : list string) : NoDup (dict_fromkeys lines).
Proof.
  induction lines as [| y lines IH]; [constructor |].
  rewrite fromkeys_cons. constructor.
  - rewrite filter_In. unfold absent. cbn [existsb].
    rewrite String.eqb_refl. cbn. intros [_ H]. discriminate.
  - apply NoDup_filter. exact IH.
Qed.

Lemma fromkeys_NoDup_id (lines : list string) :
  NoDup lines -> dict_fromkeys lines = lines.
Proof.
  induction 1 as [| x lines Hx _ IH]; [reflexivity |].
  rewrite fromkeys_cons, IH. f_equal.
  rewrite forallb_filter_id; [reflexivity |].
  apply forallb_forall. intros y Hy. unfold absent. cbn [existsb].
  rewrite orb_false_r.
  destruct (String.eqb_spec y x) as [-> | _]; [contradiction | reflexivity].
Qed.
End AccessLogFacts.

(** X20: the deduplicated access log.  [dict.fromkeys] keeps the first
    line where it is and drops its later repeats from the rest, so every
    line of the server's stdout is logged once, at the place it first
    appears; lines that are already distinct are logged as they are, and
    deduplicating twice changes nothing. *)
Theorem access_log_keeps_first_occurrences (lines : list string) :
  (forall x rest,
      lines = x :: rest ->
      Startup.dict_fromkeys lines =
      x :: filter (Startup.absent [x]) (Startup.dict_fromkeys rest)) /\
  NoDup (Startup.dict_fromkeys lines) /\
  (forall x, In x (Startup.dict_fromkeys lines) <-> In x lines) /\
  (NoDup lines -> Startup.access_log lines = Startup.join_with nl lines) /\
  Startup.dict_fromkeys (Startup.dict_fromkeys lines) =
    Startup.dict_fromkeys lines.
Proof.
  split; [intros x rest ->; apply fromkeys_cons |].
  split; [apply fromkeys_NoDup |].
  split; [intros x; apply fromkeys_In |].
  split.
  - intros H. unfold Startup.access_log. rewrite fromkeys_NoDup_id by exact H.
    reflexivity.
  - apply fromkeys_NoDup_id, fromkeys_NoDup.
Qed.

Lemma access_log_keeps_first_occurrences_witness :
  Startup.dict_fromkeys ["GET /people/0"; "GET /people/1"; "GET /people/0"] =
    ["GET /people/0"; "GET /people/1"] /\
  Startup.access_log ["GET /people/0"; "GET /people/1"] =
    ("GET /people/0" ++ nl ++ "GET /people/1")%string.
Proof.
  split.
  - apply (proj1 (@access_log_keeps_first_occurrences
                    ["GET /people/0"; "GET /people/1"; "GET /people/0"])
             "GET /people/0" ["GET /people/1"; "GET /people/0"] eq_refl).
  - apply (@access_log_keeps_first_occurrences
             ["GET /people/0"; "GET /people/1"]).
    repeat constructor; simpl; intuition discriminate.
Defined.

(** ** The width of the chart *)

Lemma round_lower (q : Q) : (q - (1 # 2) <= inject_Z (round q))%Q.
Proof.
  unfold round.
  pose proof (Qfloor_le q) as Hlo.
  pose proof (Qlt_floor q) as Hhi.
  rewrite inject_Z_plus in Hhi.
  destruct (Qcompare (q - inject_Z (Qfloor q)) (1 # 2)) eqn:E.
  - apply Qeq_alt in E.
    destruct (Z.even (Qfloor q)); [| rewrite inject_Z_plus]; lra.
  - apply Qlt_alt in E. lra.
  - apply Qgt_alt in E. rewrite inject_Z_plus. lra.
Qed.

Lemma max_bounds (x : Z) (rest : list Z) :
  Forall (fun y => (y <= fold_left Z.max rest x)%Z) (x :: rest).
Proof.
  assert (Hgen : forall l a,
             (a <= fold_left Z.max l a)%Z /\
             Forall (fun y => (y <= fold_left Z.max l a)%Z) l).
  { induction l as [| y l IH]; intros a; simpl.
    - split; [lia | constructor].
    - destruct (IH (Z.max a y)) as [Ha Hl].
      split; [lia |]. constructor; [lia | exact Hl]. }
  destruct (Hgen rest x) as [Hx Hrest]. constructor; assumption.
Qed.

Lemma weight_bounds_most (most columns : Z) :
  (1 <= columns)%Z ->
  (2 * most <=
   columns * (2 * round (inject_Z most / inject_Z columns) + 1))%Z.
Proof.
  intros Hc.
  pose proof (round_lower (inject_Z most / inject_Z columns)) as Hr.
  set (w := round (inject_Z most / inject_Z columns)) in *.
  destruct (Z.le_gt_cases (2 * most) (columns * (2 * w + 1))) as [H | H];
    [exact H | exfalso].
  assert (Hq : (0 < inject_Z columns)%Q).
  { unfold Qlt, inject_Z. simpl. lia. }
  assert (Hlt : (inject_Z w + (1 # 2) < inject_Z most / inject_Z columns)%Q).
  { apply Qlt_shift_div_l; [exact Hq |].
    unfold Qlt, Qmult, Qplus, inject_Z. cbn [Qnum Qden].
    rewrite ?Pos.mul_1_r. lia. }
  lra.
Qed.

(** X21: the width of the chart.  For one column or more, no row of the
    chart has more than one and a half times [columns] cells, however
    many requests were made. *)
Theorem chart_rows_within_three_halves_of_columns
    (timings : list Sample) (columns weight : Z) :
  (1 <= columns)%Z ->
  max_requests_in_column (requests_per_second timings) columns =
    Returned weight ->
  Forall
    (fun bucket =>
       (2 * Z.of_nat (List.length (chunker (map Some bucket) weight))
        <= 3 * columns)%Z)
    (values (requests_per_second timings)).
Proof.
  intros Hc Hw.
  unfold max_requests_in_column, most_requests_in_second in Hw.
  destruct (values (requests_per_second timings)) as [| b0 bs] eqn:Hv;
    [constructor |].
  cbn [map max bind] in Hw. unfold truediv in Hw.
  destruct (Z.eqb_spec columns 0) as [H0 | _]; [lia |].
  cbn [bind] in Hw. injection Hw as Hw.
  pose proof (max_bounds (Z.of_nat (List.length b0))
                (map (fun v => Z.of_nat (List.length v)) bs)) as Hmax.
  set (most := fold_left Z.max
                 (map (fun v => Z.of_nat (List.length v)) bs)
                 (Z.of_nat (List.length b0))) in *.
  pose proof (weight_bounds_most most Hc) as Hbound. rewrite Hw in Hbound.
  change (Z.of_nat (List.length b0)
          :: map (fun v => Z.of_nat (List.length v)) bs)
    with (map (fun v => Z.of_nat (List.length v)) (b0 :: bs)) in Hmax.
  rewrite Forall_map in Hmax.
  eapply Forall_impl; [| exact Hmax]. cbv beta. intros b Hb.
  destruct (Z.le_gt_cases 1 weight) as [Hpos | Hneg].
  - rewrite chunker_length by exact Hpos.
    set (n := Z.to_nat weight).
    assert (Hn : 0 < n) by (unfold n; lia).
    pose proof (Nat.Div0.mul_div_le (List.length b + n - 1) n) as Hdiv.
    set (k := (List.length b + n - 1) / n) in *.
    assert (Hwn : weight = Z.of_nat n) by (unfold n; lia).
    nia.
  - unfold chunker. replace (Z.to_nat weight) with 0 by lia.
    unfold zip_longest_shared. cbn [map List.length]. lia.
Qed.

Lemma chart_rows_within_three_halves_of_columns_witness :
  Forall
    (fun bucket =>
       (2 * Z.of_nat (List.length (chunker (map Some bucket) 1)) <= 3 * 2)%Z)
    (values (requests_per_second example_timings)).
Proof.
  apply (@chart_rows_within_three_halves_of_columns example_timings 2 1).
  - lia.
  - reflexivity.
Defined.
